(** * UniFi controller client: a shallow embedding of [shared/unifi_client.py]

    The Python class [UniFiClient] wraps an aiohttp session and, for the
    legacy protocol, an aiounifi [Controller].  Its methods are embedded
    here as computations in a state-and-exception monad: the state holds
    the fields of the instance, the sessions allocated so far, the state
    of the outside world (network and controller) and the log of the
    calls made outside the instance; a Python exception is the [Raise]
    outcome.

    Conventions of the model:
    - strings are 8-bit character strings, and [str.lower] acts on the
      letters [A]..[Z], as it does on every ASCII string;
    - JSON numbers are Python ints and binary64 floats, the latter with
      the IEEE 754 operations of [SpecFloat];
    - every exception is an instance of [Exception] (task cancellation
      is not modelled), and calls of the logger are left out;
    - what aiohttp and aiounifi do is decided by an environment, which
      may answer any call with an exception; closing a session and
      constructing a [Controller] do not raise, and an aiounifi object
      is truthy;
    - the finalizer [__del__] is not modelled. *)

From Stdlib Require Import String Ascii List ZArith Bool Lia SpecFloat DecimalString.
Import ListNotations.
Local Open Scope string_scope.

(** ** Python string methods used by the client

    The strings of the model are sequences of 8-bit characters.  The
    methods are those of [str] on ASCII text, which the spellings of a
    MAC are; a character above 127 is left as it is by [lower], where
    the Unicode lowering of Python may change it, and its length. *)

Module PyStr.

(** [c.lower()] for one character. *)
Definition lower_ascii (c : ascii) : ascii :=
  let n := nat_of_ascii c in
  if (65 <=? n)%nat && (n <=? 90)%nat then ascii_of_nat (n + 32) else c.

(** [s.lower()] *)
Fixpoint lower (s : string) : string :=
  match s with
  | EmptyString => EmptyString
  | String c s' => String (lower_ascii c) (lower s')
  end.

(** [s.replace(old, new)] for one-character [old] and [new], the only
    form the client uses. *)
Fixpoint replace (old new : ascii) (s : string) : string :=
  match s with
  | EmptyString => EmptyString
  | String c s' =>
      String (if Ascii.eqb c old then new else c) (replace old new s')
  end.

(** [c in s] *)
Fixpoint contains (c : ascii) (s : string) : bool :=
  match s with
  | EmptyString => false
  | String c' s' => Ascii.eqb c' c || contains c s'
  end.

End PyStr.

(** [mac.lower().replace("-", ":").replace(".", ":")], the expression of
    [get_client_by_mac] and [get_ap_name_by_mac]. *)
Definition normalize_mac (mac : string) : string :=
  PyStr.replace "." ":" (PyStr.replace "-" ":" (PyStr.lower mac)).

(** ** Python values

    What [resp.json()] returns, and the dictionaries the client builds:
    [None] is [JNull]; a [dict] is an association list in insertion
    order whose lookup takes the first binding of a key. *)

#[warnings="-register-all"] Inductive json : Type :=
| JNull
| JBool (b : bool)
| JInt (n : Z)
| JFloat (f : spec_float)
| JStr (s : string)
| JList (l : list json)
| JDict (d : list (string * json)).

Definition pydict : Type := list (string * json).

(** Exceptions: the class name and [str(e)].  Every exception of the
    model is an instance of [Exception]; task cancellation is not one
    and is outside the model. *)
Inductive exn : Type := Exception (type : string) (msg : string).

Definition str_exn (e : exn) : string := let 'Exception _ m := e in m.

Inductive result (A : Type) : Type :=
| Ok (a : A)
| Raise (e : exn).
Arguments Ok {A} a.
Arguments Raise {A} e.

Definition AttributeError : exn := Exception "AttributeError" "object has no such attribute".
Definition TypeError (msg : string) : exn := Exception "TypeError" msg.
Definition RuntimeError (msg : string) : exn := Exception "RuntimeError" msg.
Definition OverflowError (msg : string) : exn := Exception "OverflowError" msg.

Module Py.

(** [d.get(k, default)] on the association list of a dict. *)
Fixpoint lookup (k : string) (d : pydict) : option json :=
  match d with
  | [] => None
  | (k', v) :: d' => if String.eqb k' k then Some v else lookup k d'
  end.

(** [d[k] = v]: a present key keeps its place, a new one goes last. *)
Fixpoint setitem (k : string) (v : json) (d : pydict) : pydict :=
  match d with
  | [] => [(k, v)]
  | (k', v') :: d' =>
      if String.eqb k' k then (k', v) :: d' else (k', v') :: setitem k v d'
  end.

Definition keys (d : pydict) : list string := map fst d.

(** [x.get(k, default)]; only a dict has the method. *)
Definition get (x : json) (k : string) (default : json) : result json :=
  match x with
  | JDict d => Ok (match lookup k d with Some v => v | None => default end)
  | _ => Raise AttributeError
  end.

(** [x.lower()]; only a string has the method. *)
Definition lower (x : json) : result string :=
  match x with
  | JStr s => Ok (PyStr.lower s)
  | _ => Raise AttributeError
  end.

Definition float_is_zero (f : spec_float) : bool :=
  match f with S754_zero _ => true | _ => false end.

(** [bool(x)] *)
Definition truthy (x : json) : bool :=
  match x with
  | JNull => false
  | JBool b => b
  | JInt n => negb (n =? 0)%Z
  | JFloat f => negb (float_is_zero f)
  | JStr s => negb (String.eqb s "")
  | JList l => match l with [] => false | _ => true end
  | JDict d => match d with [] => false | _ => true end
  end.

(** [a or b] *)
Definition or (a b : json) : json := if truthy a then a else b.

(** [x == y] for a string [y]. *)
Definition eq_str (x : json) (y : string) : bool :=
  match x with JStr s => String.eqb s y | _ => false end.

Fixpoint chars (s : string) : list json :=
  match s with
  | EmptyString => []
  | String c s' => JStr (String c EmptyString) :: chars s'
  end.

(** The items a [for] loop over [x] visits. *)
Definition iter (x : json) : result (list json) :=
  match x with
  | JList l => Ok l
  | JDict d => Ok (map (fun kv => JStr (fst kv)) d)
  | JStr s => Ok (chars s)
  | _ => Raise (TypeError "object is not iterable")
  end.

Definition str_of_Z (z : Z) : string := NilZero.string_of_int (Z.to_int z).

(** ** Floats: IEEE 754 binary64 *)

Definition float_of_int (n : Z) : spec_float :=
  match n with
  | Z0 => S754_zero false
  | Zpos p => S754_finite false p 0
  | Zneg p => S754_finite true p 0
  end.

Definition fdiv : spec_float -> spec_float -> spec_float := SFdiv 53 1024.

Definition is_infinite (f : spec_float) : bool :=
  match f with S754_infinity _ => true | _ => false end.

(** [x / n] for a positive int [n]: an int (or bool) [x] is divided
    exactly and rounded once, a float [x] by the float of [n]. *)
Definition truediv (x : json) (n : positive) : result spec_float :=
  match x with
  | JInt a =>
      let q := fdiv (float_of_int a) (S754_finite false n 0) in
      if is_infinite q
      then Raise (OverflowError "integer division result too large for a float")
      else Ok q
  | JBool b =>
      Ok (fdiv (float_of_int (if b then 1 else 0)) (S754_finite false n 0))
  | JFloat f => Ok (fdiv f (S754_finite false n 0))
  | _ => Raise (TypeError "unsupported operand type(s) for /")
  end.

(** The integer nearest to [p / q], a tie going to the even one
    ([0 <= p], [0 < q]). *)
Definition div_half_even (p q : Z) : Z :=
  let k := (p / q)%Z in
  match (2 * (p mod q) ?= q)%Z with
  | Lt => k
  | Gt => (k + 1)%Z
  | Eq => if Z.even k then k else (k + 1)%Z
  end.

(** The number of tenths nearest to the magnitude [m * 2^e]. *)
Definition tenths (m : positive) (e : Z) : Z :=
  match e with
  | Zneg k => div_half_even (10 * Zpos m) (Z.pow_pos 2 k)
  | _ => (10 * Zpos m * 2 ^ e)%Z
  end.

(** [round(x, 1)]: the exact value of [x] is rounded to a whole number
    of tenths, ties to even, and the float nearest to that decimal is
    returned; zeros, infinities and NaN round to themselves. *)
Definition round1 (x : spec_float) : spec_float :=
  match x with
  | S754_finite s m e =>
      match tenths m e with
      | Zpos d => fdiv (S754_finite s d 0) (S754_finite false 10 0)
      | _ => S754_zero s
      end
  | _ => x
  end.

End Py.

(** ** The objects of the program *)

(** An item of an aiounifi table (a [Client] or [Device] object) with the
    two attributes the wrapper reads. *)
Record ApiItem : Type := { item_name : json; item_model : json }.

(** An aiounifi table ([controller.clients], [controller.devices]).  The
    library is not part of the repository: whether its tables answer
    [len()] is a field of the model. *)
Record ApiHandler : Type := {
  items : list (string * ApiItem);
  has_len : bool
}.

Definition empty_handler : ApiHandler := {| items := []; has_len := true |}.

(** [aiounifi.controller.Controller]: the keyword arguments [connect]
    gives to its constructor, and the two tables of the object.  The
    library is not part of the repository: whether its constructor
    takes these arguments or raises is an answer of the environment
    ([new_controller] below). *)
Record Controller : Type := {
  ctl_host : string;
  ctl_session : nat;
  ctl_username : option string;
  ctl_password : option string;
  ctl_site : string;
  ctl_ssl_context : bool;
  clients : ApiHandler;
  devices : ApiHandler
}.

(** [aiohttp.ClientSession]: its default headers and whether it has been
    closed.  Sessions live in a heap and are referred to by index. *)
Record ClientSession : Type := { headers : pydict; closed : bool }.

(** The fields of a [UniFiClient] instance. *)
Record UniFiClient : Type := {
  host : string;
  username : option string;
  password : option string;
  api_key : option string;
  site : string;
  verify_ssl : bool;
  controller : option Controller;
  _session : option nat;
  is_unifi_os : bool
}.

(** [UniFiClient.__init__] *)
Definition __init__ (host : string) (username password api_key : option string)
    (site : string) (verify_ssl : bool) : UniFiClient :=
  {| host := host; username := username; password := password;
     api_key := api_key; site := site; verify_ssl := verify_ssl;
     controller := None; _session := None;
     is_unifi_os := match api_key with Some _ => true | None => false end |}.

(** ** The outside world *)

Inductive Method : Type := GET | POST | PUT.

Record Request : Type := {
  req_method : Method;
  req_url : string;
  req_json : option json;
  req_headers : pydict
}.

(** A response: its status and what [resp.json()] gives. *)
Record Response : Type := { status : Z; json_body : result json }.

(** A call the client makes outside itself. *)
Inductive Event : Type :=
| EvSslContext
| EvConnector
| EvSessionOpen (sid : nat)
| EvSessionClose (sid : nat)
| EvHttp (r : Request)
| EvController (c : Controller)
| EvLogin (c : Controller)
| EvInitialize (c : Controller).

(** How an outside call ended. *)
Inductive Answer : Type :=
| Returned
| Raised (e : exn)
| Responded (status : Z).

Definition LogEntry : Type := (Event * Answer)%type.

(** The environment answers each outside call from its own state [W];
    any answer may be an exception.  [new_controller] is the call
    [Controller(host=..., session=..., username=..., password=...,
    site=..., ssl_context=...)], which raises [TypeError] when the
    constructor of the library does not take these keywords. *)
Record Env (W : Type) : Type := {
  ssl_create_default_context : W -> result unit * W;
  TCPConnector : bool -> W -> result unit * W;
  new_session : pydict -> W -> result unit * W;
  send : Request -> W -> result Response * W;
  new_controller : Controller -> W -> result unit * W;
  login : Controller -> W -> result unit * W;
  initialize : Controller -> W -> result (ApiHandler * ApiHandler) * W
}.
Arguments ssl_create_default_context {W} _ _.
Arguments TCPConnector {W} _ _ _.
Arguments new_session {W} _ _ _.
Arguments send {W} _ _ _.
Arguments new_controller {W} _ _ _.
Arguments login {W} _ _ _.
Arguments initialize {W} _ _ _.

(** The whole state a method runs in. *)
Record State (W : Type) : Type := {
  self : UniFiClient;
  heap : list ClientSession;
  world : W;
  log : list LogEntry
}.
Arguments self {W} _.
Arguments heap {W} _.
Arguments world {W} _.
Arguments log {W} _.
Arguments Build_State {W} _ _ _ _.

(** ** The monad of methods: state and exceptions *)

Definition M (W A : Type) : Type := State W -> result A * State W.

Definition ret {W A} (a : A) : M W A := fun st => (Ok a, st).

Definition bind {W A B} (c : M W A) (k : A -> M W B) : M W B :=
  fun st =>
    match c st with
    | (Ok a, st') => k a st'
    | (Raise e, st') => (Raise e, st')
    end.

Definition raise {W A} (e : exn) : M W A := fun st => (Raise e, st).

(** [try: c  except Exception as e: h e] *)
Definition try_except {W A} (c : M W A) (h : exn -> M W A) : M W A :=
  fun st =>
    match c st with
    | (Ok a, st') => (Ok a, st')
    | (Raise e, st') => h e st'
    end.

(** [try: c  finally: f] *)
Definition try_finally {W A} (c : M W A) (f : M W unit) : M W A :=
  fun st =>
    match c st with
    | (r, st') =>
        match f st' with
        | (Ok _, st'') => (r, st'')
        | (Raise e, st'') => (Raise e, st'')
        end
    end.

Definition lift {W A} (r : result A) : M W A := fun st => (r, st).

Declare Scope py_scope.
Delimit Scope py_scope with py.
Notation "x <- c ;; k" := (bind c (fun x => k))
  (at level 61, c at next level, right associativity) : py_scope.
Notation "c ;; k" := (bind c (fun _ => k))
  (at level 61, right associativity) : py_scope.

Definition get_self {W} : M W UniFiClient := fun st => (Ok (self st), st).

(** The instance after [self._session = s] and [self.controller = k]. *)
Definition with_fields (c : UniFiClient) (s : option nat)
    (k : option Controller) : UniFiClient :=
  {| host := host c; username := username c; password := password c;
     api_key := api_key c; site := site c; verify_ssl := verify_ssl c;
     controller := k; _session := s; is_unifi_os := is_unifi_os c |}.

Definition set_session {W} (s : option nat) : M W unit :=
  fun st =>
    (Ok tt,
     Build_State (with_fields (self st) s (controller (self st)))
       (heap st) (world st) (log st)).

Definition set_controller {W} (k : option Controller) : M W unit :=
  fun st =>
    (Ok tt,
     Build_State (with_fields (self st) (_session (self st)) k)
       (heap st) (world st) (log st)).

Definition answer_of {A} (ans : A -> Answer) (r : result A) : Answer :=
  match r with
  | Ok a => ans a
  | Raise e => Raised e
  end.

(** An outside call: answered by the environment and logged with how it
    ended. *)
Definition outside {W A} (ev : Event) (ans : A -> Answer)
    (f : W -> result A * W) : M W A :=
  fun st =>
    let '(r, w) := f (world st) in
    (r, Build_State (self st) (heap st) w (log st ++ [(ev, answer_of ans r)])).

Definition returned {A} (_ : A) : Answer := Returned.
Definition responded (r : Response) : Answer := Responded (status r).

Fixpoint close_at (sid : nat) (h : list ClientSession) : list ClientSession :=
  match h, sid with
  | [], _ => []
  | s :: h', O => {| headers := headers s; closed := true |} :: h'
  | s :: h', S n => s :: close_at n h'
  end.

(** ** Pure parts of the methods *)

Definition rbind {A B} (r : result A) (k : A -> result B) : result B :=
  match r with
  | Ok a => k a
  | Raise e => Raise e
  end.

Declare Scope res_scope.
Delimit Scope res_scope with res.
Notation "x <- c ;; k" := (rbind c (fun x => k))
  (at level 61, c at next level, right associativity) : res_scope.

(** What [get_clients] and [get_access_points] return: a dict built by
    the wrapper (UniFi OS) or a table of the aiounifi controller. *)
Inductive Table : Type :=
| Dict (d : pydict)
| Handler (h : ApiHandler).

(** A value found in a table. *)
Inductive Entry : Type :=
| DictEntry (v : json)
| ObjEntry (o : ApiItem).

Fixpoint handler_lookup (k : string) (l : list (string * ApiItem)) : option ApiItem :=
  match l with
  | [] => None
  | (k', o) :: l' => if String.eqb k' k then Some o else handler_lookup k l'
  end.

(** [table.get(key)]; [None] when the key is absent. *)
Definition table_get (t : Table) (key : string) : option Entry :=
  match t with
  | Dict d => option_map DictEntry (Py.lookup key d)
  | Handler h => option_map ObjEntry (handler_lookup key (items h))
  end.

(** [len(table)] *)
Definition table_len (t : Table) : result Z :=
  match t with
  | Dict d => Ok (Z.of_nat (length d))
  | Handler h =>
      if has_len h then Ok (Z.of_nat (length (items h)))
      else Raise (TypeError "object has no len()")
  end.

(** [round(rate / 1000, 1) if rate else None] *)
Definition rate_mbps (rate : json) : result json :=
  if Py.truthy rate
  then (q <- Py.truediv rate 1000 ;; Ok (JFloat (Py.round1 q)))%res
  else Ok JNull.

(** The dict [get_clients] stores for one raw client. *)
Definition client_entry (client : json) (mac : string) : result json :=
  (tx_rate <- Py.get client "tx_rate" JNull ;;
   rx_rate <- Py.get client "rx_rate" JNull ;;
   tx_rate_mbps <- rate_mbps tx_rate ;;
   rx_rate_mbps <- rate_mbps rx_rate ;;
   ap_mac <- Py.get client "ap_mac" JNull ;;
   ip <- Py.get client "ip" JNull ;;
   last_seen <- Py.get client "last_seen" JNull ;;
   rssi <- Py.get client "rssi" JNull ;;
   hostname <- Py.get client "hostname" JNull ;;
   name <- Py.get client "name" JNull ;;
   channel <- Py.get client "channel" JNull ;;
   radio <- Py.get client "radio" JNull ;;
   uptime <- Py.get client "uptime" JNull ;;
   tx_bytes <- Py.get client "tx_bytes" JNull ;;
   rx_bytes <- Py.get client "rx_bytes" JNull ;;
   blocked <- Py.get client "blocked" (JBool false) ;;
   Ok (JDict [("mac", JStr mac); ("ap_mac", ap_mac); ("ip", ip);
              ("last_seen", last_seen); ("rssi", rssi);
              ("hostname", hostname); ("name", name);
              ("tx_rate", tx_rate_mbps); ("rx_rate", rx_rate_mbps);
              ("channel", channel); ("radio", radio); ("uptime", uptime);
              ("tx_bytes", tx_bytes); ("rx_bytes", rx_bytes);
              ("blocked", blocked)]))%res.

(** The loop of [get_clients] over the raw clients. *)
Fixpoint clients_loop (clients_list : list json) (clients_dict : pydict)
    : result pydict :=
  match clients_list with
  | [] => Ok clients_dict
  | client :: rest =>
      (m <- Py.get client "mac" (JStr "") ;;
       mac <- Py.lower m ;;
       if negb (String.eqb mac "")
       then (entry <- client_entry client mac ;;
             clients_loop rest (Py.setitem mac entry clients_dict))
       else clients_loop rest clients_dict)%res
  end.

(** The dict [get_access_points] stores for one raw device. *)
Definition ap_entry (device : json) (mac : string) : result json :=
  (name <- Py.get device "name" JNull ;;
   model <- Py.get device "model" JNull ;;
   type <- Py.get device "type" JNull ;;
   Ok (JDict [("mac", JStr mac); ("name", name); ("model", model);
              ("type", type)]))%res.

(** The loop of [get_access_points] over the raw devices. *)
Fixpoint aps_loop (devices_list : list json) (aps_dict : pydict)
    : result pydict :=
  match devices_list with
  | [] => Ok aps_dict
  | device :: rest =>
      (type <- Py.get device "type" JNull ;;
       if Py.eq_str type "uap"
       then (m <- Py.get device "mac" (JStr "") ;;
             mac <- Py.lower m ;;
             if negb (String.eqb mac "")
             then (entry <- ap_entry device mac ;;
                   aps_loop rest (Py.setitem mac entry aps_dict))
             else aps_loop rest aps_dict)
       else aps_loop rest aps_dict)%res
  end.

(** [next((u for u in users if u.get('mac', '').lower() == mac_address.lower()), None)] *)
Fixpoint find_user (users : list json) (mac_address : string) : result json :=
  match users with
  | [] => Ok JNull
  | u :: rest =>
      (m <- Py.get u "mac" (JStr "") ;;
       mac <- Py.lower m ;;
       if String.eqb mac (PyStr.lower mac_address) then Ok u
       else find_user rest mac_address)%res
  end.

(** [str(x)] inside an f-string; [repr] stands for Python's rendering of
    floats, lists and dicts. *)
Definition format (repr : json -> string) (x : json) : string :=
  match x with
  | JStr s => s
  | JNull => "None"
  | JBool true => "True"
  | JBool false => "False"
  | JInt n => Py.str_of_Z n
  | _ => repr x
  end.

Definition not_connected : exn :=
  RuntimeError "Not connected to UniFi controller. Call connect() first.".

(** ** The methods of [UniFiClient] *)

Section Methods.

Context {W : Type} (env : Env W).
Variable repr : json -> string.

Local Open Scope py_scope.

(** [aiohttp.ClientSession(connector=..., headers=...)] *)
Definition ClientSession_new (hdrs : pydict) : M W nat :=
  fun st =>
    let sid := length (heap st) in
    match new_session env hdrs (world st) with
    | (Ok _, w) =>
        (Ok sid,
         Build_State (self st)
           (heap st ++ [{| headers := hdrs; closed := false |}]) w
           (log st ++ [(EvSessionOpen sid, Returned)]))
    | (Raise e, w) =>
        (Raise e,
         Build_State (self st) (heap st) w
           (log st ++ [(EvSessionOpen sid, Raised e)]))
    end.

(** [session.closed]; a reference to no session counts as closed. *)
Definition session_closed (sid : nat) : M W bool :=
  fun st =>
    (Ok (match nth_error (heap st) sid with
         | Some s => closed s
         | None => true
         end), st).

(** [await session.close()]; closing does not raise. *)
Definition session_close (sid : nat) : M W unit :=
  fun st =>
    (Ok tt,
     Build_State (self st) (close_at sid (heap st)) (world st)
       (log st ++ [(EvSessionClose sid, Returned)])).

(** [session.get(url)], [session.post(url, json=...)] and
    [session.put(url, json=...)]: a closed session refuses, an open
    one sends the request with its headers. *)
Definition session_request (sid : nat) (m : Method) (url : string)
    (payload : option json) : M W Response :=
  fun st =>
    match nth_error (heap st) sid with
    | Some s =>
        if closed s then (Raise (RuntimeError "Session is closed"), st)
        else
          let req := {| req_method := m; req_url := url;
                        req_json := payload; req_headers := headers s |} in
          outside (EvHttp req) responded (send env req) st
    | None => (Raise (RuntimeError "Session is closed"), st)
    end.

Definition disconnect : M W unit :=
  c <- get_self ;;
  match _session c with
  | Some sid =>
      is_closed <- session_closed sid ;;
      if negb is_closed then session_close sid else ret tt
  | None => ret tt
  end ;;
  set_session None ;;
  set_controller None.

Definition connect : M W bool :=
  try_except
    (c <- get_self ;;
     ssl_context <-
       (if negb (verify_ssl c)
        then outside EvSslContext returned (ssl_create_default_context env) ;; ret true
        else ret false) ;;
     outside EvConnector returned (TCPConnector env ssl_context) ;;
     let headers :=
       match api_key c with
       | Some k => if negb (String.eqb k "") then [("X-API-KEY", JStr k)] else []
       | None => []
       end in
     sid <- ClientSession_new headers ;;
     set_session (Some sid) ;;
     if is_unifi_os c then
       let test_url :=
         host c ++ "/proxy/network/api/s/" ++ site c ++ "/stat/device" in
       resp <- session_request sid GET test_url None ;;
       if negb (status resp =? 200)%Z then disconnect ;; ret false
       else ret true
     else
       let k := {| ctl_host := host c; ctl_session := sid;
                   ctl_username := username c; ctl_password := password c;
                   ctl_site := site c; ctl_ssl_context := ssl_context;
                   clients := empty_handler; devices := empty_handler |} in
       outside (EvController k) returned (new_controller env k) ;;
       set_controller (Some k) ;;
       outside (EvLogin k) returned (login env k) ;;
       ret true)
    (fun e => disconnect ;; ret false).

(** [await self.controller.initialize()]: the tables of the controller
    object are refreshed. *)
Definition controller_initialize (k : Controller) : M W Controller :=
  tables <- outside (EvInitialize k) returned (initialize env k) ;;
  let k' := {| ctl_host := ctl_host k; ctl_session := ctl_session k;
               ctl_username := ctl_username k; ctl_password := ctl_password k;
               ctl_site := ctl_site k; ctl_ssl_context := ctl_ssl_context k;
               clients := fst tables; devices := snd tables |} in
  set_controller (Some k') ;;
  ret k'.

Definition get_clients : M W Table :=
  c <- get_self ;;
  match _session c with
  | None => raise not_connected
  | Some sid =>
      try_except
        (if is_unifi_os c then
           let url :=
             host c ++ "/proxy/network/api/s/" ++ site c ++ "/stat/sta" in
           resp <- session_request sid GET url None ;;
           if negb (status resp =? 200)%Z then
             raise (RuntimeError
                      ("API request failed: " ++ Py.str_of_Z (status resp)))
           else
             data <- lift (json_body resp) ;;
             data_field <- lift (Py.get data "data" (JList [])) ;;
             clients_list <- lift (Py.iter data_field) ;;
             clients_dict <- lift (clients_loop clients_list []) ;;
             ret (Dict clients_dict)
         else
           match controller c with
           | None => raise (RuntimeError "Controller not initialized")
           | Some k =>
               k' <- controller_initialize k ;;
               ret (Handler (clients k'))
           end)
        (fun e => raise e)
  end.

Definition get_client_by_mac (mac_address : string) : M W (option Entry) :=
  clients <- get_clients ;;
  let normalized_mac := normalize_mac mac_address in
  ret (table_get clients normalized_mac).

Definition get_access_points : M W Table :=
  c <- get_self ;;
  match _session c with
  | None => raise not_connected
  | Some sid =>
      try_except
        (if is_unifi_os c then
           let url :=
             host c ++ "/proxy/network/api/s/" ++ site c ++ "/stat/device" in
           resp <- session_request sid GET url None ;;
           if negb (status resp =? 200)%Z then
             raise (RuntimeError
                      ("API request failed: " ++ Py.str_of_Z (status resp)))
           else
             data <- lift (json_body resp) ;;
             data_field <- lift (Py.get data "data" (JList [])) ;;
             devices_list <- lift (Py.iter data_field) ;;
             aps_dict <- lift (aps_loop devices_list []) ;;
             ret (Dict aps_dict)
         else
           match controller c with
           | None => raise (RuntimeError "Controller not initialized")
           | Some k =>
               k' <- controller_initialize k ;;
               ret (Handler (devices k'))
           end)
        (fun e => raise e)
  end.

Definition get_ap_name_by_mac (ap_mac : string) : M W json :=
  try_except
    (aps <- get_access_points ;;
     let normalized_mac := normalize_mac ap_mac in
     match table_get aps normalized_mac with
     | Some (DictEntry ap) =>
         if Py.truthy ap then
           match ap with
           | JDict _ =>
               name <- lift (Py.get ap "name" JNull) ;;
               model <- lift (Py.get ap "model" JNull) ;;
               ret (Py.or (Py.or name model) (JStr normalized_mac))
           | _ => raise AttributeError
           end
         else ret (JStr normalized_mac)
     | Some (ObjEntry ap) =>
         ret (Py.or (Py.or (item_name ap) (item_model ap))
                (JStr normalized_mac))
     | None => ret (JStr normalized_mac)
     end)
    (fun e => ret (JStr ap_mac)).

(** The common body of [block_client] and [unblock_client], which
    differ in the command only. *)
Definition stamgr (cmd : string) (mac_address : string) : M W bool :=
  c <- get_self ;;
  match _session c with
  | None => raise not_connected
  | Some sid =>
      try_except
        (let url :=
           if is_unifi_os c
           then host c ++ "/proxy/network/api/s/" ++ site c ++ "/cmd/stamgr"
           else host c ++ "/api/s/" ++ site c ++ "/cmd/stamgr" in
         let payload :=
           JDict [("cmd", JStr cmd); ("mac", JStr (PyStr.lower mac_address))] in
         resp <- session_request sid POST url (Some payload) ;;
         if (status resp =? 200)%Z then ret true else ret false)
        (fun e => ret false)
  end.

Definition block_client (mac_address : string) : M W bool :=
  stamgr "block-sta" mac_address.

Definition unblock_client (mac_address : string) : M W bool :=
  stamgr "unblock-sta" mac_address.

Definition set_client_name (mac_address name : string) : M W bool :=
  c <- get_self ;;
  match _session c with
  | None => raise not_connected
  | Some sid =>
      try_except
        (let url :=
           if is_unifi_os c
           then host c ++ "/proxy/network/api/s/" ++ site c ++ "/rest/user"
           else host c ++ "/api/s/" ++ site c ++ "/rest/user" in
         resp <- session_request sid GET url None ;;
         if (status resp =? 200)%Z then
           data <- lift (json_body resp) ;;
           data_field <- lift (Py.get data "data" (JList [])) ;;
           users <- lift (Py.iter data_field) ;;
           user <- lift (find_user users mac_address) ;;
           if Py.truthy user then
             user_id <- lift (Py.get user "_id" JNull) ;;
             let update_url := url ++ "/" ++ format repr user_id in
             let payload := JDict [("name", JStr name)] in
             update_resp <- session_request sid PUT update_url (Some payload) ;;
             if (status update_resp =? 200)%Z then ret true else ret false
           else
             let payload :=
               JDict [("mac", JStr (PyStr.lower mac_address));
                      ("name", JStr name)] in
             create_resp <- session_request sid POST url (Some payload) ;;
             if (status create_resp =? 200)%Z then ret true else ret false
         else ret false)
        (fun e => ret false)
  end.

Definition test_connection : M W json :=
  try_finally
    (try_except
       (connected <- connect ;;
        if negb connected then
          ret (JDict [("connected", JBool false);
                      ("error", JStr "Failed to connect to UniFi controller")])
        else
          clients <- get_clients ;;
          aps <- get_access_points ;;
          client_count <- lift (table_len clients) ;;
          ap_count <- lift (table_len aps) ;;
          c <- get_self ;;
          ret (JDict [("connected", JBool true);
                      ("client_count", JInt client_count);
                      ("ap_count", JInt ap_count);
                      ("site", JStr (site c))]))
       (fun e =>
          ret (JDict [("connected", JBool false);
                      ("error", JStr (str_exn e))])))
    disconnect.

End Methods.

Arguments disconnect {W} : simpl never.

(** * Vocabulary of the properties *)

(** A string is in canonical MAC form when lowering it changes nothing
    and it holds neither [-] nor [.]. *)
Definition canonical_mac (s : string) : Prop :=
  PyStr.lower s = s /\
  PyStr.contains "-" s = false /\ PyStr.contains "." s = false.

(** [wp m st Q]: running [m] from [st] ends with a result and a state
    that satisfy [Q]. *)
Definition wp {W A} (m : M W A) (st : State W)
    (Q : result A -> State W -> Prop) : Prop :=
  Q (fst (m st)) (snd (m st)).

(** The state [disconnect] leaves. *)
Definition disconnected {W} (st : State W) : State W :=
  let c := self st in
  let c' := with_fields c None None in
  match _session c with
  | Some sid =>
      match nth_error (heap st) sid with
      | Some s =>
          if closed s then Build_State c' (heap st) (world st) (log st)
          else Build_State c' (close_at sid (heap st)) (world st)
                 (log st ++ [(EvSessionClose sid, Returned)])
      | None => Build_State c' (heap st) (world st) (log st)
      end
  | None => Build_State c' (heap st) (world st) (log st)
  end.

(** The log entry of a session being closed. *)
Definition is_close (en : LogEntry) : Prop :=
  exists sid, en = (EvSessionClose sid, Returned).

(** An outside call that went well: it returned, or the controller
    answered 200. *)
Definition clean (en : LogEntry) : Prop :=
  snd en = Returned \/ snd en = Responded 200.

(** The fields set by [__init__] and never assigned again. *)
Definition same_config (c c' : UniFiClient) : Prop :=
  host c' = host c /\ username c' = username c /\
  password c' = password c /\ api_key c' = api_key c /\
  site c' = site c /\ verify_ssl c' = verify_ssl c /\
  is_unifi_os c' = is_unifi_os c.

(** [P] selects the instances of interest (a protocol mode), [phi] the
    log entries such an instance is allowed to produce; a method [keeps]
    them when, run on a selected instance, it leaves the configuration
    alone and logs allowed entries only. *)
Section Growth.

Context {W : Type}.
Variable P : UniFiClient -> Prop.
Variable phi : UniFiClient -> LogEntry -> Prop.

Definition grows (st st' : State W) : Prop :=
  same_config (self st) (self st') /\
  exists new, log st' = (log st ++ new)%list /\ Forall (phi (self st)) new.

Definition keeps {A} (m : M W A) : Prop :=
  forall st, P (self st) -> grows st (snd (m st)).

End Growth.

(** The URLs of the UniFi OS protocol start with the host followed by
    [/proxy/network/api/s/{site}/]. *)
Definition controlleros_url (h s url : string) : Prop :=
  exists rest, url = h ++ "/proxy/network/api/s/" ++ s ++ "/" ++ rest.

(** What an instance in UniFi OS mode may log: requests to UniFi OS
    URLs of its host and site, and no call of the aiounifi controller. *)
Definition os_entry (h s : string) (en : LogEntry) : Prop :=
  match fst en with
  | EvHttp r => controlleros_url h s (req_url r)
  | EvController _ | EvLogin _ | EvInitialize _ => False
  | _ => True
  end.

(** An instance in UniFi OS mode, of host [h] and site [s]. *)
Definition os_mode (h s : string) (c : UniFiClient) : Prop :=
  is_unifi_os c = true /\ host c = h /\ site c = s.

Arguments disconnected {W} : simpl never.

(** ** Every operation

    The public methods as one family, to state what holds of each of
    them. *)

Inductive Op : Type :=
| OpConnect
| OpDisconnect
| OpGetClients
| OpGetClientByMac (mac_address : string)
| OpGetAccessPoints
| OpGetApNameByMac (ap_mac : string)
| OpBlockClient (mac_address : string)
| OpUnblockClient (mac_address : string)
| OpSetClientName (mac_address name : string)
| OpTestConnection.

Inductive Value : Type :=
| VNone
| VBool (b : bool)
| VTable (t : Table)
| VEntry (e : option Entry)
| VJson (j : json).

Definition call {W} (env : Env W) (repr : json -> string) (op : Op) : M W Value :=
  match op with
  | OpConnect => bind (connect env) (fun b => ret (VBool b))
  | OpDisconnect => bind disconnect (fun _ => ret VNone)
  | OpGetClients => bind (get_clients env) (fun t => ret (VTable t))
  | OpGetClientByMac mac =>
      bind (get_client_by_mac env mac) (fun e => ret (VEntry e))
  | OpGetAccessPoints => bind (get_access_points env) (fun t => ret (VTable t))
  | OpGetApNameByMac mac =>
      bind (get_ap_name_by_mac env mac) (fun j => ret (VJson j))
  | OpBlockClient mac => bind (block_client env mac) (fun b => ret (VBool b))
  | OpUnblockClient mac =>
      bind (unblock_client env mac) (fun b => ret (VBool b))
  | OpSetClientName mac name =>
      bind (set_client_name env repr mac name) (fun b => ret (VBool b))
  | OpTestConnection => bind (test_connection env) (fun j => ret (VJson j))
  end.

(** The instance with its username and password replaced; the rest of
    the state is kept. *)
Definition with_login (c : UniFiClient) (u p : option string) : UniFiClient :=
  {| host := host c; username := u; password := p;
     api_key := api_key c; site := site c; verify_ssl := verify_ssl c;
     controller := controller c; _session := _session c;
     is_unifi_os := is_unifi_os c |}.

Definition relogin {W} (u p : option string) (st : State W) : State W :=
  Build_State (with_login (self st) u p) (heap st) (world st) (log st).

(** A method is blind to the login when, on an instance in UniFi OS
    mode, another username and password change nothing but those two
    fields of the final state. *)
Definition blind {W A} (m : M W A) : Prop :=
  forall u p st,
    is_unifi_os (self st) = true ->
    m (relogin u p st) = (fst (m st), relogin u p (snd (m st))) /\
    is_unifi_os (self (snd (m st))) = true.

(** What an instance in legacy mode may log when it reads a table: a
    refresh through the aiounifi controller. *)
Definition legacy_entry (en : LogEntry) : Prop :=
  exists k, fst en = EvInitialize k.

Definition legacy_mode (c : UniFiClient) : Prop := is_unifi_os c = false.

(** From index [n] on, a session that is still open is the one the
    instance holds. *)
Definition owned {W} (n : nat) (st : State W) : Prop :=
  forall sid s,
    n <= sid -> nth_error (heap st) sid = Some s -> closed s = false ->
    _session (self st) = Some sid.

(** The two shapes of the dict [test_connection] returns. *)
Definition probe_success (site : string) (d : pydict) : Prop :=
  exists client_count ap_count,
    d = [("connected", JBool true); ("client_count", JInt client_count);
         ("ap_count", JInt ap_count); ("site", JStr site)].

Definition probe_failure (d : pydict) : Prop :=
  exists msg, d = [("connected", JBool false); ("error", JStr msg)].

(** After a successful [connect], the rest of the body of
    [test_connection] raises [e]: in [get_clients], whose outcome is
    [clients], else in [get_access_points], whose outcome is [aps], else
    in [len(clients)], else in [len(aps)]. *)
Definition probe_raised (clients aps : result Table) (e : exn) : Prop :=
  clients = Raise e \/
  exists found,
    clients = Ok found /\
    (aps = Raise e \/
     exists points,
       aps = Ok points /\
       (table_len found = Raise e \/
        exists client_count,
          table_len found = Ok client_count /\ table_len points = Raise e)).

(** Reading a table touches neither the sessions nor the session
    field nor the configuration. *)
Definition reads_only {W A} (m : M W A) : Prop :=
  forall st,
    wp m st (fun _ st' =>
      heap st' = heap st /\ _session (self st') = _session (self st) /\
      same_config (self st) (self st')).

(** ** Environments to run the methods in *)

(** The controller answers the listing request for [path] with status 200
    and a body whose [data] holds the raw records [raw], the instance
    holding an open session. *)
Definition answers {W} (env : Env W) (st : State W) (path : string)
    (raw : list json) : Prop :=
  exists sid s resp w data field,
    _session (self st) = Some sid /\
    nth_error (heap st) sid = Some s /\ closed s = false /\
    send env {| req_method := GET;
                req_url := host (self st) ++ "/proxy/network/api/s/" ++
                           site (self st) ++ path;
                req_json := None; req_headers := headers s |}
      (world st) = (Ok resp, w) /\
    status resp = 200%Z /\ json_body resp = Ok data /\
    Py.get data "data" (JList []) = Ok field /\ Py.iter field = Ok raw.

(** An environment without state in which every outside call succeeds
    and every request is answered by [resp]. *)
Definition answering (resp : Response) : Env unit :=
  {| ssl_create_default_context := fun w => (Ok tt, w);
     TCPConnector := fun _ w => (Ok tt, w);
     new_session := fun _ w => (Ok tt, w);
     send := fun _ w => (Ok resp, w);
     new_controller := fun _ w => (Ok tt, w);
     login := fun _ w => (Ok tt, w);
     initialize := fun _ w => (Ok (empty_handler, empty_handler), w) |}.

(** An environment in which the network is down: every outside call but
    the local ones raises. *)
Definition unreachable : Env unit :=
  {| ssl_create_default_context := fun w => (Ok tt, w);
     TCPConnector := fun _ w => (Ok tt, w);
     new_session := fun _ w => (Ok tt, w);
     send := fun _ w => (Raise (Exception "ClientConnectorError" "Cannot connect to host"), w);
     new_controller := fun _ w => (Ok tt, w);
     login := fun _ w => (Raise (Exception "RequestError" "Cannot connect to host"), w);
     initialize := fun _ w => (Raise (Exception "RequestError" "Cannot connect to host"), w) |}.

(** A model of the controller's user registry, the resource at the URL
    [base], to run [set_client_name] against: [GET] lists the entries,
    [POST] stores the posted entry under a fresh [_id], [PUT] on
    [base/{_id}] sets the name of the entries with that [_id]. *)
Module Registry.

Record t : Type := { users : list json; next_id : Z }.

Definition addressed (base url : string) (u : json) : bool :=
  match u with
  | JDict d => match Py.lookup "_id" d with
               | Some (JStr i) => String.eqb url (base ++ "/" ++ i)
               | _ => false
               end
  | _ => false
  end.

Definition rename (base url : string) (name : json) (u : json) : json :=
  match u with
  | JDict d =>
      if addressed base url u then JDict (Py.setitem "name" name d) else u
  | _ => u
  end.

Definition reply (code : Z) (body : json) : result Response :=
  Ok {| status := code; json_body := Ok body |}.

Definition serve (base : string) (req : Request) (reg : t)
    : result Response * t :=
  match req_method req, req_json req with
  | GET, _ => (reply 200 (JDict [("data", JList (users reg))]), reg)
  | POST, Some (JDict p) =>
      let u := JDict (("_id", JStr ("u" ++ Py.str_of_Z (next_id reg))) :: p) in
      (reply 200 (JDict [("data", JList [u])]),
       {| users := users reg ++ [u]; next_id := next_id reg + 1 |})
  | PUT, Some (JDict p) =>
      match Py.lookup "name" p with
      | Some name =>
          if existsb (addressed base (req_url req)) (users reg)
          then (reply 200 (JDict [("data", JList [])]),
                {| users := map (rename base (req_url req) name) (users reg);
                   next_id := next_id reg |})
          else (reply 404 JNull, reg)
      | None => (reply 400 JNull, reg)
      end
  | _, _ => (reply 400 JNull, reg)
  end.

Definition env (base : string) : Env t :=
  {| ssl_create_default_context := fun w => (Ok tt, w);
     TCPConnector := fun _ w => (Ok tt, w);
     new_session := fun _ w => (Ok tt, w);
     send := serve base;
     new_controller := fun _ w => (Ok tt, w);
     login := fun _ w => (Ok tt, w);
     initialize := fun _ w => (Ok (empty_handler, empty_handler), w) |}.

End Registry.

(** An instance for a controller at [https://unifi] with an API key,
    holding the open session 0, in a world [w]. *)
Definition connected_os {W} (w : W) : State W :=
  Build_State
    (with_fields (__init__ "https://unifi" None None (Some "key") "default" false)
       (Some 0) None)
    [{| headers := [("X-API-KEY", JStr "key")]; closed := false |}] w [].

(** A fresh instance with an API key that was never connected. *)
Definition fresh_os {W} (w : W) : State W :=
  Build_State (__init__ "https://unifi" None None (Some "key") "default" false)
    [] w [].

(** Rendering of other values in f-strings is not needed by the runs
    below. *)
Definition no_repr (_ : json) : string := "".

(** The raw record [record] has a usable MAC, whose key is [k]: a
    non-empty string, lowercased. *)
Definition usable_mac (record : json) (k : string) : Prop :=
  exists m, Py.get record "mac" (JStr "") = Ok (JStr m) /\
            k = PyStr.lower m /\ k <> "".

(** The raw device is reported as an access point. *)
Definition is_uap (device : json) : Prop :=
  exists t, Py.get device "type" JNull = Ok t /\ Py.eq_str t "uap" = true.

(** The dict stored for an access point. *)
Definition ap_record (v : json) : Prop :=
  exists mac name model type,
    v = JDict [("mac", JStr mac); ("name", name); ("model", model);
               ("type", type)].



(** A listing answer whose only record has the MAC [mac] and the
    upload rate [tx_rate]. *)
Definition one_client (mac : string) (tx_rate : json) : Response :=
  {| status := 200;
     json_body :=
       Ok (JDict [("data",
                   JList [JDict [("mac", JStr mac); ("tx_rate", tx_rate)]])]) |}.

(** The [name] and [model] of a table entry: keys of a dict, attributes
    of an aiounifi object. *)
Definition entry_field (key : string) (attr : ApiItem -> json) (e : Entry) : json :=
  match e with
  | DictEntry (JDict d) =>
      match Py.lookup key d with Some v => v | None => JNull end
  | DictEntry _ => JNull
  | ObjEntry o => attr o
  end.

Definition entry_name : Entry -> json := entry_field "name" item_name.
Definition entry_model : Entry -> json := entry_field "model" item_model.

(** The label of an access point: its name, else its model, else the
    MAC it was looked up by. *)
Definition ap_label (ap : Entry) (mac : string) : json :=
  if Py.truthy (entry_name ap) then entry_name ap
  else if Py.truthy (entry_model ap) then entry_model ap
  else JStr mac.

(** A listing answer with one access point. *)
Definition one_ap (mac : string) (name model : json) : Response :=
  {| status := 200;
     json_body :=
       Ok (JDict [("data",
                   JList [JDict [("mac", JStr mac); ("name", name);
                                 ("model", model); ("type", JStr "uap")]])]) |}.

(** The user registry of the controller at [https://unifi], site
    [default], reached through UniFi OS. *)
Definition registry_url : string :=
  "https://unifi/proxy/network/api/s/default/rest/user".

Definition registry : Env Registry.t := Registry.env registry_url.

(** A registry that knows one device, by its colon-separated MAC. *)
Definition one_user : Registry.t :=
  {| Registry.users :=
       [JDict [("_id", JStr "u1"); ("mac", JStr "aa:bb:cc:dd:ee:ff");
               ("name", JStr "old")]];
     Registry.next_id := 2 |}.

(** The methods of the requests logged, in order. *)
Definition methods_logged (l : list LogEntry) : list Method :=
  flat_map (fun en => match fst en with
                      | EvHttp r => [req_method r]
                      | _ => []
                      end) l.

(** The JSON bodies of the requests logged, in order. *)
Definition payloads_logged (l : list LogEntry) : list json :=
  flat_map (fun en => match fst en with
                      | EvHttp r => match req_json r with
                                    | Some j => [j]
                                    | None => []
                                    end
                      | _ => []
                      end) l.

(** A fresh instance with a username and a password only. *)
Definition fresh_legacy {W} (w : W) : State W :=
  Build_State
    (__init__ "https://unifi" (Some "admin") (Some "secret") None "default" false)
    [] w [].

(** * Further vocabulary *)

(** The string is ASCII text: every character is below 128.  On such a
    string the methods of [PyStr] are those of Python's [str]. *)
Fixpoint ascii_only (s : string) : bool :=
  match s with
  | EmptyString => true
  | String c s' => (nat_of_ascii c <? 128)%nat && ascii_only s'
  end.

(** The operations that open or close a session. *)
Definition lifecycle (op : Op) : bool :=
  match op with
  | OpConnect | OpDisconnect | OpTestConnection => true
  | _ => false
  end.

(** The operations that start with the guard
    [if not self._session: raise RuntimeError(...)]. *)
Definition needs_session (op : Op) : bool :=
  match op with
  | OpGetClients | OpGetClientByMac _ | OpGetAccessPoints
  | OpBlockClient _ | OpUnblockClient _ | OpSetClientName _ _ => true
  | _ => false
  end.

(** No restriction on the instance, none on what is logged. *)
Definition any_mode (_ : UniFiClient) : Prop := True.
Definition any_entry (_ : UniFiClient) (_ : LogEntry) : Prop := True.

(** The session [s] after [close()]. *)
Definition closed_session (s : ClientSession) : ClientSession :=
  {| headers := headers s; closed := true |}.

(** The session the instance holds, when it is still open. *)
Definition held_open {W} (st : State W) : option nat :=
  match _session (self st) with
  | Some sid =>
      match nth_error (heap st) sid with
      | Some s => if closed s then None else Some sid
      | None => None
      end
  | None => None
  end.

(** What an operation gives on an instance that holds no session. *)
Definition without_session {W} (env : Env W) (repr : json -> string)
    (op : Op) (st : State W) : Prop :=
  match op with
  | OpGetApNameByMac ap_mac =>
      call env repr op st = (Ok (VJson (JStr ap_mac)), st)
  | _ =>
      if needs_session op
      then call env repr op st = (Raise not_connected, st)
      else True
  end.

(** The log entry is no request, or a request with the headers [hd]. *)
Definition carries (hd : pydict) (en : LogEntry) : Prop :=
  match fst en with
  | EvHttp r => req_headers r = hd
  | _ => True
  end.

(** A method works through the session the instance holds: it neither
    opens nor closes a session nor assigns the session field, and each
    request it makes carries the default headers of that session. *)
Definition uses_held_session {W A} (m : M W A) : Prop :=
  forall st,
    wp m st (fun _ st' =>
      heap st' = heap st /\ _session (self st') = _session (self st) /\
      exists new,
        log st' = (log st ++ new)%list /\
        forall sid s,
          _session (self st) = Some sid -> nth_error (heap st) sid = Some s ->
          Forall (carries (headers s)) new).

(** The default headers [connect] gives the session: the API key, when
    there is one and it is not empty. *)
Definition api_key_headers (c : UniFiClient) : pydict :=
  match api_key c with
  | Some k => if String.eqb k "" then [] else [("X-API-KEY", JStr k)]
  | None => []
  end.

(** The controller object [connect] builds in legacy mode, for the
    session [sid]. *)
Definition legacy_controller (c : UniFiClient) (sid : nat) : Controller :=
  {| ctl_host := host c; ctl_session := sid;
     ctl_username := username c; ctl_password := password c;
     ctl_site := site c; ctl_ssl_context := negb (verify_ssl c);
     clients := empty_handler; devices := empty_handler |}.

(** What a UniFi OS listing makes of the controller's answer, [loop]
    being the loop of the method over the raw records. *)
Definition listing_result (loop : list json -> pydict -> result pydict)
    (answer : result Response) : result Table :=
  match answer with
  | Raise e => Raise e
  | Ok resp =>
      if (status resp =? 200)%Z then
        (data <- json_body resp ;;
         field <- Py.get data "data" (JList []) ;;
         raw <- Py.iter field ;;
         d <- loop raw [] ;;
         Ok (Dict d))%res
      else Raise (RuntimeError
                    ("API request failed: " ++ Py.str_of_Z (status resp)))
  end.

(** The [GET] request of a UniFi OS listing through the session [s]. *)
Definition listing_request (c : UniFiClient) (s : ClientSession)
    (path : string) : Request :=
  {| req_method := GET;
     req_url := host c ++ "/proxy/network/api/s/" ++ site c ++ path;
     req_json := None; req_headers := headers s |}.

(** The failures of a listing method [m] whose request the controller
    answers by [answer]: a network error and a body that is no JSON are
    raised as they are, a status other than 200 is a [RuntimeError] that
    names it, and a body without [data] gives the empty dict. *)
Definition listing_failures {W} (m : M W Table) (st : State W)
    (answer : result Response) : Prop :=
  (forall e, answer = Raise e -> fst (m st) = Raise e) /\
  (forall resp, answer = Ok resp -> (status resp =? 200)%Z = false ->
     fst (m st) =
     Raise (RuntimeError ("API request failed: " ++ Py.str_of_Z (status resp)))) /\
  (forall resp e, answer = Ok resp -> (status resp =? 200)%Z = true ->
     json_body resp = Raise e -> fst (m st) = Raise e) /\
  (forall resp fields, answer = Ok resp -> (status resp =? 200)%Z = true ->
     json_body resp = Ok (JDict fields) -> Py.lookup "data" fields = None ->
     fst (m st) = Ok (Dict [])).

(** The rates [round(rate / 1000, 1) if rate else None] does not raise
    on: a falsy value, a float, a bool, and an int whose quotient is
    still a float. *)
Definition rate_convertible (rate : json) : bool :=
  negb (Py.truthy rate) ||
  match rate with
  | JInt a =>
      negb (Py.is_infinite
              (Py.fdiv (Py.float_of_int a) (S754_finite false 1000 0)))
  | JBool _ | JFloat _ => true
  | _ => false
  end.

(** [d.get(key)] on the association list of a dict. *)
Definition field (key : string) (d : pydict) : json :=
  match Py.lookup key d with Some v => v | None => JNull end.

(** The raw clients the loop of [get_clients] gets through: dicts whose
    [mac] is absent or a string and, when it is not empty, whose two
    rates are convertible. *)
Definition client_well_formed (client : json) : bool :=
  match client with
  | JDict d =>
      match Py.lookup "mac" d with
      | None => true
      | Some (JStr m) =>
          String.eqb (PyStr.lower m) "" ||
          (rate_convertible (field "tx_rate" d) &&
           rate_convertible (field "rx_rate" d))
      | Some _ => false
      end
  | _ => false
  end.

(** The raw devices the loop of [get_access_points] gets through: dicts
    whose [mac], when the type is [uap], is absent or a string. *)
Definition device_well_formed (device : json) : bool :=
  match device with
  | JDict d =>
      if Py.eq_str (field "type" d) "uap" then
        match Py.lookup "mac" d with
        | None | Some (JStr _) => true
        | Some _ => false
        end
      else true
  | _ => false
  end.

(** The key a raw record is stored under, if it is stored. *)
Definition record_key (record : json) : option string :=
  match Py.get record "mac" (JStr "") with
  | Ok (JStr m) =>
      if String.eqb (PyStr.lower m) "" then None else Some (PyStr.lower m)
  | _ => None
  end.

(** The last raw record stored under the key [k]. *)
Fixpoint last_with_key (k : string) (raw : list json) : option json :=
  match raw with
  | [] => None
  | record :: rest =>
      match last_with_key k rest with
      | Some later => Some later
      | None =>
          match record_key record with
          | Some k' => if String.eqb k' k then Some record else None
          | None => None
          end
      end
  end.

Definition stored (r : result json) : option json :=
  match r with Ok v => Some v | Raise _ => None end.

(** A listing answer with two records of one device, under two
    spellings of its MAC and two addresses. *)
Definition seen_twice : Response :=
  {| status := 200;
     json_body :=
       Ok (JDict [("data",
                   JList [JDict [("mac", JStr "AA:BB:CC:DD:EE:FF");
                                 ("ip", JStr "10.0.0.1")];
                          JDict [("mac", JStr "aa:bb:cc:dd:ee:ff");
                                 ("ip", JStr "10.0.0.2")]])]) |}.


(** Between [st] and [st'] the log grew by requests of which the last
    is a write, a [POST] or a [PUT], that the controller answered
    with 200. *)
Definition accepted_write {W} (st st' : State W) : Prop :=
  exists before req,
    log st' = (log st ++ before ++ [(EvHttp req, Responded 200)])%list /\
    (req_method req = POST \/ req_method req = PUT).

(** A control action ends with a bool, and with [True] only after an
    accepted write. *)
Definition reports {W} (st : State W) (r : result bool) (st' : State W) : Prop :=
  exists done,
    r = Ok done /\ (done = true -> accepted_write st st').

(** The request of [block_client] and [unblock_client] for the command
    [cmd], sent through the session [s]. *)
Definition stamgr_request (c : UniFiClient) (s : ClientSession)
    (cmd mac_address : string) : Request :=
  {| req_method := POST;
     req_url := if is_unifi_os c
                then host c ++ "/proxy/network/api/s/" ++ site c ++ "/cmd/stamgr"
                else host c ++ "/api/s/" ++ site c ++ "/cmd/stamgr";
     req_json := Some (JDict [("cmd", JStr cmd);
                              ("mac", JStr (PyStr.lower mac_address))]);
     req_headers := headers s |}.

(** What a control action makes of the answer to its write: [True] for
    status 200, [False] for any other status and for an exception. *)
Definition accepted (answer : result Response) : bool :=
  match answer with
  | Ok resp => (status resp =? 200)%Z
  | Raise _ => false
  end.

(** The run of a control action that sends the one request [req]. *)
Definition one_request_run {W} (env : Env W) (req : Request) (st : State W)
    : result bool * State W :=
  let answer := send env req (world st) in
  (Ok (accepted (fst answer)),
   Build_State (self st) (heap st) (snd answer)
     (log st ++ [(EvHttp req, answer_of responded (fst answer))])).

(** An environment in which the controller refuses every request with
    status 403. *)
Definition refusing : Env unit :=
  answering {| status := 403; json_body := Ok JNull |}.

(** The sequences of requests [set_client_name] can make: none, the
    [GET] of the user list alone, or that [GET] followed by one write. *)
Definition naming_requests (ms : list Method) : Prop :=
  ms = [] \/ ms = [GET] \/ ms = [GET; PUT] \/ ms = [GET; POST].

(** The user entry [u] has a string [mac] that differs from
    [mac_address] when both are lowercased. *)
Definition other_user (mac_address : string) (u : json) : Prop :=
  exists m, Py.get u "mac" (JStr "") = Ok (JStr m) /\
            PyStr.lower m <> PyStr.lower mac_address.

(** The user entry [u] has a string [mac] equal to [mac_address] when
    both are lowercased. *)
Definition same_user (mac_address : string) (u : json) : Prop :=
  exists m, Py.get u "mac" (JStr "") = Ok (JStr m) /\
            PyStr.lower m = PyStr.lower mac_address.

(** Reading the [mac] of the user entry [u] in lowercase raises [e]. *)
Definition unreadable_user (u : json) (e : exn) : Prop :=
  Py.get u "mac" (JStr "") = Raise e \/
  exists m, Py.get u "mac" (JStr "") = Ok m /\ Py.lower m = Raise e.

(** The URL of the user registry [set_client_name] works on. *)
Definition rest_user_url (c : UniFiClient) : string :=
  if is_unifi_os c
  then host c ++ "/proxy/network/api/s/" ++ site c ++ "/rest/user"
  else host c ++ "/api/s/" ++ site c ++ "/rest/user".

(** The write [set_client_name] makes once the lookup in the user list
    gave [user]: an update of the entry found, by its [_id], or the
    creation of an entry for the lowercased MAC. *)
Definition naming_write (repr : json -> string) (c : UniFiClient)
    (s : ClientSession) (mac_address name : string) (user : json) : Request :=
  if Py.truthy user then
    {| req_method := PUT;
       req_url := rest_user_url c ++ "/" ++
                  format repr (match Py.get user "_id" JNull with
                               | Ok user_id => user_id
                               | Raise _ => JNull
                               end);
       req_json := Some (JDict [("name", JStr name)]);
       req_headers := headers s |}
  else
    {| req_method := POST;
       req_url := rest_user_url c;
       req_json := Some (JDict [("mac", JStr (PyStr.lower mac_address));
                                ("name", JStr name)]);
       req_headers := headers s |}.

(** The [GET] of the user list through the session [s]. *)
Definition user_list_request (c : UniFiClient) (s : ClientSession) : Request :=
  {| req_method := GET; req_url := rest_user_url c;
     req_json := None; req_headers := headers s |}.

(** The instance holds the open session [s], and the controller answers
    the [GET] of the user list with status 200 and a body whose [data]
    holds the entries [users], which leaves the world [w]. *)
Definition lists_users {W} (env : Env W) (st : State W) (s : ClientSession)
    (users : list json) (w : W) : Prop :=
  exists sid resp data field,
    _session (self st) = Some sid /\
    nth_error (heap st) sid = Some s /\ closed s = false /\
    send env (user_list_request (self st) s) (world st) = (Ok resp, w) /\
    status resp = 200%Z /\ json_body resp = Ok data /\
    Py.get data "data" (JList []) = Ok field /\ Py.iter field = Ok users.

(** The controller object after [initialize()] gave the tables [t]. *)
Definition refreshed (k : Controller) (t : ApiHandler * ApiHandler) : Controller :=
  {| ctl_host := ctl_host k; ctl_session := ctl_session k;
     ctl_username := ctl_username k; ctl_password := ctl_password k;
     ctl_site := ctl_site k; ctl_ssl_context := ctl_ssl_context k;
     clients := fst t; devices := snd t |}.

(** The run of a legacy listing that gives the table [pick] of the
    controller object [k]: one refresh of [k], whose failure is raised
    as it is and leaves the object as it was. *)
Definition legacy_listing_run {W} (env : Env W)
    (pick : Controller -> ApiHandler) (k : Controller) (st : State W)
    : result Table * State W :=
  let answer := initialize env k (world st) in
  let entry := (EvInitialize k, answer_of returned (fst answer)) in
  match fst answer with
  | Ok t =>
      (Ok (Handler (pick (refreshed k t))),
       Build_State
         (with_fields (self st) (_session (self st)) (Some (refreshed k t)))
         (heap st) (snd answer) (log st ++ [entry]))
  | Raise e =>
      (Raise e,
       Build_State (self st) (heap st) (snd answer) (log st ++ [entry]))
  end.

(** The operations that change something on the controller. *)
Definition writes (op : Op) : bool :=
  match op with
  | OpBlockClient _ | OpUnblockClient _ | OpSetClientName _ _ => true
  | _ => false
  end.

(** The log entry is no request, or a [GET] without a body. *)
Definition reading_entry (_ : UniFiClient) (en : LogEntry) : Prop :=
  match fst en with
  | EvHttp r => req_method r = GET /\ req_json r = None
  | _ => True
  end.

(** The requests logged, in order. *)
Definition requests_logged (l : list LogEntry) : list Request :=
  flat_map (fun en => match fst en with
                      | EvHttp r => [r]
                      | _ => []
                      end) l.

(** The probe of [connect] in UniFi OS mode. *)
Definition probe_request (c : UniFiClient) : Request :=
  {| req_method := GET;
     req_url := host c ++ "/proxy/network/api/s/" ++ site c ++ "/stat/device";
     req_json := None;
     req_headers := api_key_headers c |}.

(** The keys of a client record, in the order of the dict display. *)
Definition client_fields : list string :=
  ["mac"; "ap_mac"; "ip"; "last_seen"; "rssi"; "hostname"; "name";
   "tx_rate"; "rx_rate"; "channel"; "radio"; "uptime"; "tx_bytes";
   "rx_bytes"; "blocked"].

(** The fields of a client record that are copied from the raw record. *)
Definition copied_fields : list string :=
  ["ap_mac"; "ip"; "last_seen"; "rssi"; "hostname"; "name"; "channel";
   "radio"; "uptime"; "tx_bytes"; "rx_bytes"].

(** The keys of an access-point record. *)
Definition ap_fields : list string := ["mac"; "name"; "model"; "type"].

(** [v] is the client record stored under [k] for the raw client [c]:
    a dict with the fifteen keys, whose [mac] is the key, whose copied
    fields are those of [c], [None] for a missing one, and whose
    [blocked] is that of [c], [False] when it is missing. *)
Definition client_projection (c : json) (k : string) (v : json) : Prop :=
  exists d,
    v = JDict d /\ Py.keys d = client_fields /\
    Py.lookup "mac" d = Some (JStr k) /\
    Forall (fun f => Py.get v f JNull = Py.get c f JNull) copied_fields /\
    Py.get v "blocked" JNull = Py.get c "blocked" (JBool false).

(** [v] is the access-point record stored under [k] for the raw device
    [c]: a dict with the four keys, whose [mac] is the key, whose [type]
    is [uap] and whose [name] and [model] are those of [c]. *)
Definition ap_projection (c : json) (k : string) (v : json) : Prop :=
  exists d,
    v = JDict d /\ Py.keys d = ap_fields /\
    Py.lookup "mac" d = Some (JStr k) /\
    Py.lookup "type" d = Some (JStr "uap") /\
    Py.get v "name" JNull = Py.get c "name" JNull /\
    Py.get v "model" JNull = Py.get c "model" JNull.

(** Every value of the dict is the projection of a raw record that has
    its key as usable MAC. *)
Definition projections (proj : json -> string -> json -> Prop)
    (raw : list json) (t : result Table) : Prop :=
  match t with
  | Ok (Dict d) =>
      Forall (fun kv => exists c, In c raw /\ usable_mac c (fst kv) /\
                                  proj c (fst kv) (snd kv)) d
  | Ok (Handler _) => False
  | Raise _ => True
  end.

(** * Threat intelligence: the risk classification *)

Module Intel.

(** [_classify_risk(score)] of [tools/threat_watch/routers/intel.py],
    the score being an int as annotated. *)
Definition _classify_risk (score : Z) : string * string :=
  if (score >=? 80)%Z then ("critical", "#ef4444")
  else if (score >=? 50)%Z then ("high", "#f97316")
  else if (score >=? 25)%Z then ("medium", "#f59e0b")
  else if (score >? 0)%Z then ("low", "#00e1ff")
  else ("clean", "#10b981").

(** The level and the colour [check_ip] reports for a private or
    reserved address, which it does not look up. *)
Definition private_ip_risk : string * string := ("clean", "#10b981").

(** The levels by rising severity; a string that is no level ranks
    above all. *)
Definition severity (level : string) : nat :=
  if String.eqb level "clean" then 0
  else if String.eqb level "low" then 1
  else if String.eqb level "medium" then 2
  else if String.eqb level "high" then 3
  else if String.eqb level "critical" then 4
  else 5.

End Intel.




(** An environment in which every outside call succeeds but the
    construction of the aiounifi controller, whose constructor rejects
    the keyword arguments it is given. *)
Definition keyword_rejecting : Env unit :=
  {| ssl_create_default_context := fun w => (Ok tt, w);
     TCPConnector := fun _ w => (Ok tt, w);
     new_session := fun _ w => (Ok tt, w);
     send := fun _ w => (Ok {| status := 200; json_body := Ok JNull |}, w);
     new_controller :=
       fun _ w =>
         (Raise (TypeError "__init__() got an unexpected keyword argument"), w);
     login := fun _ w => (Ok tt, w);
     initialize := fun _ w => (Ok (empty_handler, empty_handler), w) |}.

(** The log entry is no login. *)
Definition no_login (en : LogEntry) : Prop :=
  forall k, fst en <> EvLogin k.
(** * Properties *)

(** ** Facts about the string methods *)

Lemma lower_ascii_cases (c : ascii) :
  PyStr.lower_ascii c = c \/
  (65 <= nat_of_ascii c <= 90 /\
   nat_of_ascii (PyStr.lower_ascii c) = nat_of_ascii c + 32)%nat.
Proof.
  unfold PyStr.lower_ascii.
  destruct ((65 <=? nat_of_ascii c)%nat && (nat_of_ascii c <=? 90)%nat) eqn:E.
  - right. apply andb_true_iff in E as [H1 H2].
    apply Nat.leb_le in H1. apply Nat.leb_le in H2.
    split; [lia|]. apply nat_ascii_embedding. lia.
  - now left.
Qed.

Lemma lower_ascii_idem (c : ascii) :
  PyStr.lower_ascii (PyStr.lower_ascii c) = PyStr.lower_ascii c.
Proof.
  destruct (lower_ascii_cases c) as [E | [Hr Hn]].
  - now rewrite E.
  - unfold PyStr.lower_ascii at 1. rewrite Hn.
    destruct (nat_of_ascii c + 32 <=? 90)%nat eqn:E.
    + apply Nat.leb_le in E. lia.
    + now rewrite andb_false_r.
Qed.

Lemma lower_idem (s : string) : PyStr.lower (PyStr.lower s) = PyStr.lower s.
Proof.
  induction s as [|c s IH]; simpl; [reflexivity|].
  now rewrite lower_ascii_idem, IH.
Qed.

Lemma lower_ascii_keeps (c x : ascii) :
  (nat_of_ascii x < 65)%nat ->
  Ascii.eqb (PyStr.lower_ascii c) x = Ascii.eqb c x.
Proof.
  intros Hx.
  destruct (lower_ascii_cases c) as [E | [Hr Hn]]; [now rewrite E|].
  destruct (Ascii.eqb_spec (PyStr.lower_ascii c) x) as [E1|N1];
    destruct (Ascii.eqb_spec c x) as [E2|N2]; try reflexivity; subst x; lia.
Qed.

Lemma lower_replace (new old : ascii) (s : string) :
  (nat_of_ascii old < 65)%nat ->
  PyStr.lower_ascii new = new ->
  PyStr.lower (PyStr.replace old new s) = PyStr.replace old new (PyStr.lower s).
Proof.
  intros Ho Hn. induction s as [|c s IH]; simpl; [reflexivity|].
  rewrite IH. f_equal.
  rewrite lower_ascii_keeps by assumption.
  destruct (Ascii.eqb c old); [assumption | reflexivity].
Qed.

Lemma replace_absent (old new : ascii) (s : string) :
  PyStr.contains old s = false -> PyStr.replace old new s = s.
Proof.
  induction s as [|c s IH]; simpl; [reflexivity|].
  intros H. apply orb_false_iff in H as [Hc Hs].
  now rewrite Hc, IH.
Qed.

Lemma replace_removes (old new : ascii) (s : string) :
  Ascii.eqb new old = false ->
  PyStr.contains old (PyStr.replace old new s) = false.
Proof.
  intros Hne. induction s as [|c s IH]; simpl; [reflexivity|].
  rewrite IH, orb_false_r.
  destruct (Ascii.eqb c old) eqn:E; assumption.
Qed.

Lemma replace_keeps_absent (x old new : ascii) (s : string) :
  Ascii.eqb new x = false ->
  PyStr.contains x s = false ->
  PyStr.contains x (PyStr.replace old new s) = false.
Proof.
  intros Hne. induction s as [|c s IH]; simpl; [reflexivity|].
  intros H. apply orb_false_iff in H as [Hc Hs].
  rewrite (IH Hs), orb_false_r.
  destruct (Ascii.eqb c old); assumption.
Qed.

Lemma normalize_mac_canonical (mac : string) : canonical_mac (normalize_mac mac).
Proof.
  unfold canonical_mac, normalize_mac. repeat split.
  - rewrite (lower_replace ":" ".") by first [reflexivity | vm_compute; lia].
    rewrite (lower_replace ":" "-") by first [reflexivity | vm_compute; lia].
    now rewrite lower_idem.
  - apply replace_keeps_absent; [reflexivity|].
    apply replace_removes. reflexivity.
  - apply replace_removes. reflexivity.
Qed.

Lemma normalize_mac_fixes_canonical (s : string) :
  canonical_mac s -> normalize_mac s = s.
Proof.
  intros (Hl & Hd & Hp). unfold normalize_mac.
  rewrite Hl, (replace_absent "-" ":" s Hd). now apply replace_absent.
Qed.

(** C9: MAC normalization (lowercase, then [-] and [.] replaced by [:])
    is idempotent on every input string, and the dash-separated
    upper-case, dot-separated and colon-separated spellings of
    aa:bb:cc:dd:ee:ff all normalize to [aa:bb:cc:dd:ee:ff]. *)
Theorem normalize_mac_idempotent_invariant :
  (forall mac : string, normalize_mac (normalize_mac mac) = normalize_mac mac) /\
  normalize_mac "AA-BB-CC-DD-EE-FF" = "aa:bb:cc:dd:ee:ff" /\
  normalize_mac "aa.bb.cc.dd.ee.ff" = "aa:bb:cc:dd:ee:ff" /\
  normalize_mac "aa:bb:cc:dd:ee:ff" = "aa:bb:cc:dd:ee:ff".
Proof.
  split; [|repeat split; reflexivity].
  intros mac. apply normalize_mac_fixes_canonical, normalize_mac_canonical.
Qed.

(** ** Rules for running the methods symbolically *)

Lemma nth_error_snoc {A} (l : list A) (x : A) :
  nth_error (l ++ [x]) (length l) = Some x.
Proof. induction l as [|y l IH]; [reflexivity | exact IH]. Qed.

Section Rules.

Context {W : Type} (env : Env W).

Lemma wp_mono {A} (m : M W A) (st : State W) (Q Q' : result A -> State W -> Prop) :
  wp m st Q -> (forall r st', Q r st' -> Q' r st') -> wp m st Q'.
Proof. unfold wp. auto. Qed.

Lemma wp_ret {A} (a : A) (st : State W) Q : Q (Ok a) st -> wp (ret a) st Q.
Proof. exact (fun H => H). Qed.

Lemma wp_raise {A} (e : exn) (st : State W) (Q : result A -> _) :
  Q (Raise e) st -> wp (raise e) st Q.
Proof. exact (fun H => H). Qed.

Lemma wp_lift {A} (r : result A) (st : State W) Q : Q r st -> wp (lift r) st Q.
Proof. exact (fun H => H). Qed.

Lemma wp_bind {A B} (c : M W A) (k : A -> M W B) (st : State W) Q :
  wp c st (fun r st' =>
             match r with
             | Ok a => wp (k a) st' Q
             | Raise e => Q (Raise e) st'
             end) ->
  wp (bind c k) st Q.
Proof. unfold wp, bind. destruct (c st) as [[a|e] st']; auto. Qed.

Lemma wp_try_except {A} (c : M W A) (h : exn -> M W A) (st : State W) Q :
  wp c st (fun r st' =>
             match r with
             | Ok a => Q (Ok a) st'
             | Raise e => wp (h e) st' Q
             end) ->
  wp (try_except c h) st Q.
Proof. unfold wp, try_except. destruct (c st) as [[a|e] st']; auto. Qed.

Lemma wp_try_finally {A} (c : M W A) (f : M W unit) (st : State W) Q :
  wp c st (fun r st' =>
             wp f st' (fun r' st'' =>
                         match r' with
                         | Ok _ => Q r st''
                         | Raise e => Q (Raise e) st''
                         end)) ->
  wp (try_finally c f) st Q.
Proof.
  unfold wp, try_finally. destruct (c st) as [r st']. cbn.
  destruct (f st') as [[u|e] st'']; auto.
Qed.

Lemma wp_get_self (st : State W) Q : Q (Ok (self st)) st -> wp get_self st Q.
Proof. exact (fun H => H). Qed.

Lemma wp_set_session (s : option nat) (st : State W) Q :
  Q (Ok tt)
    (Build_State (with_fields (self st) s (controller (self st)))
       (heap st) (world st) (log st)) ->
  wp (set_session s) st Q.
Proof. exact (fun H => H). Qed.

Lemma wp_set_controller (k : option Controller) (st : State W) Q :
  Q (Ok tt)
    (Build_State (with_fields (self st) (_session (self st)) k)
       (heap st) (world st) (log st)) ->
  wp (set_controller k) st Q.
Proof. exact (fun H => H). Qed.

Lemma wp_outside {A} (ev : Event) (ans : A -> Answer) f (st : State W) Q :
  (forall r w,
      f (world st) = (r, w) ->
      Q r (Build_State (self st) (heap st) w
             (log st ++ [(ev, answer_of ans r)]))) ->
  wp (outside ev ans f) st Q.
Proof.
  unfold wp, outside. intros H.
  destruct (f (world st)) as [r w]. now apply H.
Qed.

Lemma wp_ClientSession_new (hdrs : pydict) (st : State W) Q :
  (forall r w,
      new_session env hdrs (world st) = (r, w) ->
      match r with
      | Ok _ =>
          Q (Ok (length (heap st)))
            (Build_State (self st)
               (heap st ++ [{| headers := hdrs; closed := false |}]) w
               (log st ++ [(EvSessionOpen (length (heap st)), Returned)]))
      | Raise e =>
          Q (Raise e)
            (Build_State (self st) (heap st) w
               (log st ++ [(EvSessionOpen (length (heap st)), Raised e)]))
      end) ->
  wp (ClientSession_new env hdrs) st Q.
Proof.
  unfold wp, ClientSession_new. intros H.
  destruct (new_session env hdrs (world st)) as [[u|e] w];
    exact (H _ _ eq_refl).
Qed.

Lemma wp_session_request sid m url payload (st : State W) Q :
  match nth_error (heap st) sid with
  | Some s =>
      if closed s then Q (Raise (RuntimeError "Session is closed")) st
      else
        let req := {| req_method := m; req_url := url;
                      req_json := payload; req_headers := headers s |} in
        forall r w,
          send env req (world st) = (r, w) ->
          Q r (Build_State (self st) (heap st) w
                 (log st ++ [(EvHttp req, answer_of responded r)]))
  | None => Q (Raise (RuntimeError "Session is closed")) st
  end ->
  wp (session_request env sid m url payload) st Q.
Proof.
  unfold session_request, wp.
  destruct (nth_error (heap st) sid) as [s|]; [|auto].
  destruct (closed s); [auto|].
  intros H. apply (wp_outside _ _ _ _ _ H).
Qed.

End Rules.

(** One step of symbolic execution of a method. *)
Ltac wp_step :=
  lazymatch goal with
  | |- wp (bind _ _) _ _ => apply wp_bind
  | |- wp (ret _) _ _ => apply wp_ret
  | |- wp (raise _) _ _ => apply wp_raise
  | |- wp (lift ?r) _ _ => apply wp_lift; destruct r eqn:?
  | |- wp (try_except _ _) _ _ => apply wp_try_except
  | |- wp (try_finally _ _) _ _ => apply wp_try_finally
  | |- wp get_self _ _ => apply wp_get_self
  | |- wp (set_session _) _ _ => apply wp_set_session
  | |- wp (set_controller _) _ _ => apply wp_set_controller
  | |- wp (outside _ _ _) _ _ => apply wp_outside; intros [?|?] ? ?
  | |- wp (ClientSession_new _ _) _ _ =>
      apply wp_ClientSession_new; intros [?|?] ? ?
  | |- wp (if ?b then _ else _) _ _ => destruct b eqn:?
  | |- wp (match ?x with _ => _ end) _ _ => destruct x eqn:?
  | |- wp (let _ := _ in _) _ _ => cbv zeta
  end;
  cbn [self heap world log fst snd with_fields
       host username password api_key site verify_ssl
       controller _session is_unifi_os answer_of].

Ltac wp_request :=
  lazymatch goal with
  | |- wp (session_request _ _ _ _ _) _ _ =>
      apply wp_session_request;
      cbn [self heap world log fst snd];
      rewrite ?nth_error_snoc;
      lazymatch goal with
      | |- match nth_error ?h ?i with _ => _ end =>
          let s := fresh "s" in
          destruct (nth_error h i) as [s|] eqn:?;
          [destruct (closed s) eqn:?|]
      | _ => idtac
      end;
      cbn [closed headers]; cbv zeta; try (intros [?|?] ? ?)
  end;
  cbn [self heap world log fst snd with_fields
       host username password api_key site verify_ssl
       controller _session is_unifi_os answer_of].

Ltac wp_steps := repeat (wp_step || wp_request).

(** ** Disconnecting *)

Section Disconnect.

Context {W : Type}.

Lemma disconnect_run (st : State W) :
  disconnect st = (Ok tt, disconnected st).
Proof.
  unfold disconnect, disconnected, session_closed, session_close,
    bind, ret, get_self, set_session, set_controller.
  destruct (_session (self st)) as [sid|]; cbn; [|reflexivity].
  destruct (nth_error (heap st) sid) as [s|]; cbn; [|reflexivity].
  destruct (closed s); reflexivity.
Qed.

Lemma wp_disconnect (st : State W) Q :
  Q (Ok tt) (disconnected st) -> wp disconnect st Q.
Proof. unfold wp. now rewrite disconnect_run. Qed.

(** What [disconnect] changes: the two fields are cleared, the session
    the client held is closed, nothing else moves. *)
Lemma disconnected_spec (st : State W) :
  let st' := disconnected st in
  _session (self st') = None /\ controller (self st') = None /\
  world st' = world st /\
  (exists new, log st' = (log st ++ new)%list /\ Forall is_close new) /\
  length (heap st') = length (heap st) /\
  (forall sid s', nth_error (heap st') sid = Some s' ->
     closed s' = false ->
     nth_error (heap st) sid = Some s' /\ _session (self st) <> Some sid).
Proof.
  unfold disconnected.
  destruct (_session (self st)) as [sid|] eqn:Es.
  2:{ cbn. repeat split; try (exists []; split; [now rewrite app_nil_r|constructor]);
      try assumption; discriminate. }
  destruct (nth_error (heap st) sid) as [s|] eqn:En.
  2:{ cbn. repeat split; try (exists []; split; [now rewrite app_nil_r|constructor]);
      try assumption. intros [= <-]. congruence. }
  destruct (closed s) eqn:Ec.
  { cbn. repeat split; try (exists []; split; [now rewrite app_nil_r|constructor]);
      try assumption. intros [= <-]. congruence. }
  cbn. split; [reflexivity|]. split; [reflexivity|]. split; [reflexivity|].
  split.
  { eexists. split; [reflexivity|]. repeat constructor. now exists sid. }
  clear Es Ec. revert sid s En.
  induction (heap st) as [|x h IH]; intros sid s En.
  - destruct sid; discriminate.
  - destruct sid as [|sid]; cbn in *.
    + split; [reflexivity|]. intros [|k] s' Hn Hc; cbn in *.
      * injection Hn as <-. discriminate.
      * split; [assumption|]. intros [= ].
    + destruct (IH sid s En) as [Hl Hh]. split; [now rewrite Hl|].
      intros [|k] s' Hn Hc; cbn in *.
      * split; [assumption|]. intros [= ].
      * destruct (Hh k s' Hn Hc) as [H1 H2]. split; [assumption|].
        intros [= ->]. now apply H2.
Qed.

End Disconnect.

Ltac wp_disc :=
  lazymatch goal with
  | |- wp disconnect _ _ => apply wp_disconnect
  end.

(** Brings the facts of [disconnected_spec] for the state in the goal. *)
Ltac use_disconnected :=
  match goal with
  | |- context [disconnected ?s] =>
      let H := fresh "D" in
      pose proof (disconnected_spec s) as H; cbv zeta in H;
      cbn [self heap world log with_fields _session controller] in H;
      let l := fresh "closes" in
      let Hs := fresh "Dsession" in
      let Hc := fresh "Dcontroller" in
      let Hw := fresh "Dworld" in
      let Hl := fresh "Dlog" in
      let Hcl := fresh "Dcloses" in
      let Hn := fresh "Dlength" in
      let Ho := fresh "Dopen" in
      destruct H as (Hs & Hc & Hw & (l & Hl & Hcl) & Hn & Ho);
      rewrite ?Hs, ?Hc, ?Hw, ?Hl
  end.

(** ** Connecting *)

Lemma status_200 (r : Response) : negb (status r =? 200)%Z = false -> status r = 200%Z.
Proof. intros H. apply negb_false_iff in H. now apply Z.eqb_eq. Qed.

Section Connect.

Context {W : Type} (env : Env W).

Lemma connect_wp (st : State W) :
  wp (connect env) st (fun r st' =>
    exists b new,
      r = Ok b /\ log st' = (log st ++ new)%list /\
      (b = false ->
         _session (self st') = None /\ controller (self st') = None) /\
      (b = true -> Forall clean new)).
Proof.
  unfold connect.
  wp_steps; try wp_disc; wp_steps.
  all: try use_disconnected.
  all: eexists _, _; split; [reflexivity|];
    (split; [rewrite <- ?app_assoc; reflexivity|]);
    (split; [intros; try discriminate; split; reflexivity || assumption|]);
    intros; try discriminate.
  all: repeat (apply Forall_cons || apply Forall_nil);
    try (left; reflexivity).
  all: right; unfold responded; cbn; f_equal; now apply status_200.
Qed.

End Connect.

(** ** What every method leaves alone, and what it may log *)

Lemma same_config_refl (c : UniFiClient) : same_config c c.
Proof. repeat split. Qed.

Lemma same_config_trans (c1 c2 c3 : UniFiClient) :
  same_config c1 c2 -> same_config c2 c3 -> same_config c1 c3.
Proof. unfold same_config. intuition congruence. Qed.

Lemma same_config_with_fields (c : UniFiClient) s k :
  same_config c (with_fields c s k).
Proof. repeat split. Qed.

Section Keeps.

Context {W : Type} (env : Env W).

Variable P : UniFiClient -> Prop.
Variable phi : UniFiClient -> LogEntry -> Prop.
Hypothesis P_config : forall c c', same_config c c' -> P c -> P c'.
Hypothesis phi_config :
  forall c c' en, same_config c c' -> phi c' en -> phi c en.

Lemma grows_refl (st : State W) : grows phi st st.
Proof.
  split; [apply same_config_refl|].
  exists []. now rewrite app_nil_r.
Qed.

Lemma grows_trans (st1 st2 st3 : State W) :
  grows phi st1 st2 -> grows phi st2 st3 -> grows phi st1 st3.
Proof.
  intros [C1 (n1 & L1 & F1)] [C2 (n2 & L2 & F2)].
  split; [eapply same_config_trans; eassumption|].
  exists (n1 ++ n2)%list. split.
  - now rewrite L2, L1, app_assoc.
  - apply Forall_app. split; [assumption|].
    revert F2. apply Forall_impl. intros en. now apply phi_config.
Qed.

Lemma grows_P (st st' : State W) : grows phi st st' -> P (self st) -> P (self st').
Proof. intros [C _]. now apply P_config. Qed.

Lemma grows_one (st : State W) c' h w en :
  same_config (self st) c' -> phi (self st) en ->
  grows phi st (Build_State c' h w (log st ++ [en])).
Proof.
  intros C F. split; [exact C|].
  exists [en]. split; [reflexivity|]. now constructor.
Qed.

Lemma grows_none (st : State W) c' h w :
  same_config (self st) c' -> grows phi st (Build_State c' h w (log st)).
Proof.
  intros C. split; [exact C|]. exists []. cbn. now rewrite app_nil_r.
Qed.

Lemma keeps_ret {A} (a : A) : keeps P phi (@ret W A a).
Proof. intros st _. apply grows_refl. Qed.

Lemma keeps_raise {A} (e : exn) : keeps P phi (@raise W A e).
Proof. intros st _. apply grows_refl. Qed.

Lemma keeps_lift {A} (r : result A) : keeps P phi (@lift W A r).
Proof. intros st _. apply grows_refl. Qed.

Lemma keeps_bind {A B} (c : M W A) (k : A -> M W B) :
  keeps P phi c -> (forall a, keeps P phi (k a)) -> keeps P phi (bind c k).
Proof.
  intros Hc Hk st HP. unfold bind.
  specialize (Hc st HP). destruct (c st) as [[a|e] st1]; cbn in *; [|exact Hc].
  eapply grows_trans; [exact Hc|]. apply Hk. eapply grows_P; eassumption.
Qed.

Lemma keeps_try_except {A} (c : M W A) (h : exn -> M W A) :
  keeps P phi c -> (forall e, keeps P phi (h e)) -> keeps P phi (try_except c h).
Proof.
  intros Hc Hh st HP. unfold try_except.
  specialize (Hc st HP). destruct (c st) as [[a|e] st1]; cbn in *; [exact Hc|].
  eapply grows_trans; [exact Hc|]. apply Hh. eapply grows_P; eassumption.
Qed.

Lemma keeps_try_finally {A} (c : M W A) (f : M W unit) :
  keeps P phi c -> keeps P phi f -> keeps P phi (try_finally c f).
Proof.
  intros Hc Hf st HP. unfold try_finally.
  specialize (Hc st HP). destruct (c st) as [r st1]; cbn in *.
  assert (G : grows phi st1 (snd (f st1))) by (apply Hf; eapply grows_P; eassumption).
  destruct (f st1) as [[u|e] st2]; cbn in *; eapply grows_trans; eassumption.
Qed.

(** The continuation of [get_self] is run with an instance that
    satisfies [P]. *)
Lemma keeps_self {A} (k : UniFiClient -> M W A) :
  (forall c, P c -> keeps P phi (k c)) -> keeps P phi (bind get_self k).
Proof. intros Hk st HP. unfold bind, get_self. now apply Hk. Qed.

Lemma keeps_set_session (s : option nat) : keeps P phi (@set_session W s).
Proof. intros st _. apply grows_none, same_config_with_fields. Qed.

Lemma keeps_set_controller (k : option Controller) : keeps P phi (@set_controller W k).
Proof. intros st _. apply grows_none, same_config_with_fields. Qed.

Lemma keeps_outside {A} (ev : Event) (ans : A -> Answer)
    (f : W -> result A * W) :
  (forall c a, P c -> phi c (ev, a)) -> keeps P phi (outside ev ans f).
Proof.
  intros H st HP. unfold outside. destruct (f (world st)) as [r w]. cbn.
  apply grows_one; [apply same_config_refl | now apply H].
Qed.

Lemma keeps_session_request sid m url payload :
  (forall c hd a, P c ->
     phi c (EvHttp {| req_method := m; req_url := url;
                      req_json := payload; req_headers := hd |}, a)) ->
  keeps P phi (session_request env sid m url payload).
Proof.
  intros H st HP. unfold session_request.
  destruct (nth_error (heap st) sid) as [s|]; [|apply grows_refl].
  destruct (closed s); [apply grows_refl|].
  apply keeps_outside; [|exact HP]. intros c a. apply H.
Qed.

Lemma keeps_ClientSession_new hdrs :
  (forall c sid a, P c -> phi c (EvSessionOpen sid, a)) ->
  keeps P phi (ClientSession_new env hdrs).
Proof.
  intros H st HP. unfold ClientSession_new.
  destruct (new_session env hdrs (world st)) as [[u|e] w]; cbn;
    (apply grows_one; [apply same_config_refl | now apply H]).
Qed.

Lemma keeps_disconnect :
  (forall c sid a, P c -> phi c (EvSessionClose sid, a)) ->
  keeps P phi (@disconnect W).
Proof.
  intros H st HP. rewrite disconnect_run. cbn. unfold disconnected.
  destruct (_session (self st)) as [sid|];
    [|apply grows_none, same_config_with_fields].
  destruct (nth_error (heap st) sid) as [s|];
    [|apply grows_none, same_config_with_fields].
  destruct (closed s); [apply grows_none, same_config_with_fields|].
  apply grows_one; [apply same_config_with_fields | now apply H].
Qed.

End Keeps.

(** Symbolic proof that a method keeps the configuration and logs only
    allowed entries; [Hp] and [Hphi] are the two compatibility facts of
    the instance. *)
Ltac keeps_step Hp Hphi :=
  lazymatch goal with
  | |- keeps _ _ (bind get_self _) =>
      apply keeps_self; intros ? ?
  | |- keeps _ _ (bind _ _) => apply (keeps_bind _ _ Hp Hphi); [|intros ?]
  | |- keeps _ _ (try_except _ _) =>
      apply (keeps_try_except _ _ Hp Hphi); [|intros ?]
  | |- keeps _ _ (try_finally _ _) => apply (keeps_try_finally _ _ Hp Hphi)
  | |- keeps _ _ (ret _) => apply keeps_ret
  | |- keeps _ _ (raise _) => apply keeps_raise
  | |- keeps _ _ (lift _) => apply keeps_lift
  | |- keeps _ _ (set_session _) => apply keeps_set_session
  | |- keeps _ _ (set_controller _) => apply keeps_set_controller
  | |- keeps _ _ (outside _ _ _) => apply keeps_outside
  | |- keeps _ _ (session_request _ _ _ _ _) => apply keeps_session_request
  | |- keeps _ _ (ClientSession_new _ _) => apply keeps_ClientSession_new
  | |- keeps _ _ disconnect => apply keeps_disconnect
  | |- keeps _ _ (if ?b then _ else _) => destruct b eqn:?
  | |- keeps _ _ (match ?x with _ => _ end) => destruct x eqn:?
  | |- keeps _ _ (let _ := _ in _) => cbv zeta
  end.

(** ** The UniFi OS mode *)

Lemma os_mode_config h s c c' :
  same_config c c' -> os_mode h s c -> os_mode h s c'.
Proof. unfold os_mode, same_config. intuition congruence. Qed.

Lemma os_entry_config h s (c c' : UniFiClient) en :
  same_config c c' -> os_entry h s en -> os_entry h s en.
Proof. auto. Qed.

Lemma string_app_assoc (a b c : string) : (a ++ b) ++ c = a ++ b ++ c.
Proof. induction a as [|x a IH]; cbn; [reflexivity | now rewrite IH]. Qed.

Ltac os_step :=
  keeps_step uconstr:(os_mode_config _ _) uconstr:(os_entry_config _ _).

Ltac os_side :=
  intros;
  match goal with
  | H : os_mode _ _ ?c, E : is_unifi_os ?c = false |- _ =>
      destruct H as (H & _); congruence
  | H : os_mode _ _ ?c |- os_entry _ _ (EvHttp _, _) =>
      let Hos := fresh in
      destruct H as (Hos & <- & <-); rewrite ?Hos, ?string_app_assoc;
      eexists; cbn; reflexivity
  | |- os_entry _ _ _ => exact I
  end.

Section UnifiOs.

Context {W : Type} (env : Env W).
Variable repr : json -> string.
Variables h s : string.

Local Abbreviation keeps_os :=
  (@keeps W (os_mode h s) (fun _ => os_entry h s) _).

Lemma os_disconnect : keeps_os disconnect.
Proof. repeat os_step. os_side. Qed.

Lemma os_connect : keeps_os (connect env).
Proof.
  unfold connect. repeat os_step; try os_side; try apply os_disconnect.
Qed.

Lemma os_get_clients : keeps_os (get_clients env).
Proof.
  unfold get_clients, controller_initialize. repeat os_step; try os_side.
Qed.

Lemma os_get_access_points : keeps_os (get_access_points env).
Proof.
  unfold get_access_points, controller_initialize.
  repeat os_step; try os_side.
Qed.

Lemma os_get_client_by_mac mac : keeps_os (get_client_by_mac env mac).
Proof.
  unfold get_client_by_mac. repeat os_step; try apply os_get_clients.
Qed.

Lemma os_get_ap_name_by_mac mac : keeps_os (get_ap_name_by_mac env mac).
Proof.
  unfold get_ap_name_by_mac.
  repeat os_step; try apply os_get_access_points.
Qed.

Lemma os_stamgr cmd mac : keeps_os (stamgr env cmd mac).
Proof. unfold stamgr. repeat os_step; try os_side. Qed.

Lemma os_set_client_name mac name : keeps_os (set_client_name env repr mac name).
Proof. unfold set_client_name. repeat os_step; try os_side. Qed.

Lemma os_test_connection : keeps_os (test_connection env).
Proof.
  unfold test_connection.
  repeat os_step;
    try apply os_connect; try apply os_get_clients;
    try apply os_get_access_points; try os_side.
Qed.

Lemma os_call op : keeps_os (call env repr op).
Proof.
  destruct op; unfold call, block_client, unblock_client; os_step;
    try apply keeps_ret;
    auto using os_connect, os_disconnect, os_get_clients,
      os_get_client_by_mac, os_get_access_points, os_get_ap_name_by_mac,
      os_stamgr, os_set_client_name, os_test_connection.
Qed.

End UnifiOs.

(** ** Reading tables in legacy mode *)

Lemma legacy_mode_config c c' : same_config c c' -> legacy_mode c -> legacy_mode c'.
Proof. unfold legacy_mode, same_config. intuition congruence. Qed.

Lemma legacy_entry_config (c c' : UniFiClient) en :
  same_config c c' -> legacy_entry en -> legacy_entry en.
Proof. auto. Qed.

Ltac legacy_step := keeps_step legacy_mode_config legacy_entry_config.

Ltac legacy_side :=
  intros;
  match goal with
  | H : legacy_mode ?c, E : is_unifi_os ?c = true |- _ =>
      unfold legacy_mode in H; congruence
  | |- legacy_entry (EvInitialize _, _) => eexists; reflexivity
  end.

Section Legacy.

Context {W : Type} (env : Env W).

Local Abbreviation keeps_legacy :=
  (@keeps W legacy_mode (fun _ => legacy_entry) _).

Lemma legacy_get_clients : keeps_legacy (get_clients env).
Proof.
  unfold get_clients, controller_initialize.
  repeat legacy_step; try legacy_side.
Qed.

Lemma legacy_get_access_points : keeps_legacy (get_access_points env).
Proof.
  unfold get_access_points, controller_initialize.
  repeat legacy_step; try legacy_side.
Qed.

End Legacy.

(** ** Blindness to the login in UniFi OS mode *)

Section Blind.

Context {W : Type} (env : Env W).

Lemma blind_ret {A} (a : A) : blind (@ret W A a).
Proof. intros u p st H. now split. Qed.

Lemma blind_raise {A} (e : exn) : blind (@raise W A e).
Proof. intros u p st H. now split. Qed.

Lemma blind_lift {A} (r : result A) : blind (@lift W A r).
Proof. intros u p st H. now split. Qed.

Lemma blind_bind {A B} (c : M W A) (k : A -> M W B) :
  blind c -> (forall a, blind (k a)) -> blind (bind c k).
Proof.
  intros Hc Hk u p st H. unfold bind.
  destruct (Hc u p st H) as [E O]. rewrite E.
  destruct (c st) as [[a|e] st1]; cbn in *; [now apply Hk | now split].
Qed.

Lemma blind_try_except {A} (c : M W A) (h : exn -> M W A) :
  blind c -> (forall e, blind (h e)) -> blind (try_except c h).
Proof.
  intros Hc Hh u p st H. unfold try_except.
  destruct (Hc u p st H) as [E O]. rewrite E.
  destruct (c st) as [[a|e] st1]; cbn in *; [now split | now apply Hh].
Qed.

Lemma blind_try_finally {A} (c : M W A) (f : M W unit) :
  blind c -> blind f -> blind (try_finally c f).
Proof.
  intros Hc Hf u p st H. unfold try_finally.
  destruct (Hc u p st H) as [E O]. rewrite E.
  destruct (c st) as [r st1]; cbn in *.
  destruct (Hf u p st1 O) as [E' O']. rewrite E'.
  destruct (f st1) as [[x|e] st2]; cbn in *; now split.
Qed.

(** What follows [get_self] may read every field but the login. *)
Lemma blind_self {A} (k : UniFiClient -> M W A) :
  (forall c u p st, is_unifi_os c = true -> k (with_login c u p) st = k c st) ->
  (forall c, is_unifi_os c = true -> blind (k c)) ->
  blind (bind get_self k).
Proof.
  intros Hk Hb u p st H. unfold bind, get_self.
  cbn [self relogin]. rewrite (Hk _ _ _ _ H). now apply Hb.
Qed.

Lemma blind_set_session (s : option nat) : blind (@set_session W s).
Proof. intros u p st H. now split. Qed.

Lemma blind_set_controller (k : option Controller) : blind (@set_controller W k).
Proof. intros u p st H. now split. Qed.

Lemma blind_outside {A} (ev : Event) (ans : A -> Answer)
    (f : W -> result A * W) :
  blind (outside ev ans f).
Proof.
  intros u p st H. unfold outside. cbn [world relogin].
  destruct (f (world st)) as [r w]. now split.
Qed.

Lemma blind_session_request sid m url payload :
  blind (session_request env sid m url payload).
Proof.
  intros u p st H. unfold session_request. cbn [heap relogin].
  destruct (nth_error (heap st) sid) as [s|]; [|now split].
  destruct (closed s); [now split|]. now apply blind_outside.
Qed.

Lemma blind_ClientSession_new hdrs : blind (ClientSession_new env hdrs).
Proof.
  intros u p st H. unfold ClientSession_new. cbn [world heap relogin].
  destruct (new_session env hdrs (world st)) as [[x|e] w]; now split.
Qed.

Lemma blind_disconnect : blind (@disconnect W).
Proof.
  intros u p st H. rewrite !disconnect_run. unfold disconnected.
  cbn [self heap world log relogin with_login _session fst snd].
  destruct (_session (self st)) as [sid|]; [|now split].
  destruct (nth_error (heap st) sid) as [s|]; [|now split].
  destruct (closed s); now split.
Qed.

End Blind.

Ltac blind_read :=
  let c := fresh "c" in
  let H := fresh "Hos" in
  intros c ? ? ? H;
  cbn [with_login host username password api_key site verify_ssl
       controller _session is_unifi_os];
  rewrite ?H; reflexivity.

Ltac blind_step :=
  lazymatch goal with
  | |- blind (bind get_self _) =>
      apply blind_self; [blind_read | intros ? ?]
  | |- blind (bind _ _) => apply blind_bind; [|intros ?]
  | |- blind (try_except _ _) => apply blind_try_except; [|intros ?]
  | |- blind (try_finally _ _) => apply blind_try_finally
  | |- blind (ret _) => apply blind_ret
  | |- blind (raise _) => apply blind_raise
  | |- blind (lift _) => apply blind_lift
  | |- blind (set_session _) => apply blind_set_session
  | |- blind (set_controller _) => apply blind_set_controller
  | |- blind (outside _ _ _) => apply blind_outside
  | |- blind (session_request _ _ _ _ _) => apply blind_session_request
  | |- blind (ClientSession_new _ _) => apply blind_ClientSession_new
  | |- blind disconnect => apply blind_disconnect
  | H : is_unifi_os ?c = true |- blind (if is_unifi_os ?c then _ else _) =>
      rewrite H
  | |- blind (if ?b then _ else _) => destruct b eqn:?
  | |- blind (match ?x with _ => _ end) => destruct x eqn:?
  | |- blind (let _ := _ in _) => cbv zeta
  end.

Section BlindMethods.

Context {W : Type} (env : Env W).
Variable repr : json -> string.

Lemma blind_connect : blind (connect env).
Proof. unfold connect. repeat blind_step. Qed.

Lemma blind_get_clients : blind (get_clients env).
Proof. unfold get_clients. repeat blind_step. Qed.

Lemma blind_get_access_points : blind (get_access_points env).
Proof. unfold get_access_points. repeat blind_step. Qed.

Lemma blind_get_client_by_mac mac : blind (get_client_by_mac env mac).
Proof.
  unfold get_client_by_mac. repeat blind_step. apply blind_get_clients.
Qed.

Lemma blind_get_ap_name_by_mac mac : blind (get_ap_name_by_mac env mac).
Proof.
  unfold get_ap_name_by_mac.
  repeat blind_step; try apply blind_get_access_points.
Qed.

Lemma blind_stamgr cmd mac : blind (stamgr env cmd mac).
Proof. unfold stamgr. repeat blind_step. Qed.

Lemma blind_set_client_name mac name : blind (set_client_name env repr mac name).
Proof. unfold set_client_name. repeat blind_step. Qed.

Lemma blind_test_connection : blind (test_connection env).
Proof.
  unfold test_connection.
  repeat blind_step;
    try apply blind_connect; try apply blind_get_clients;
    try apply blind_get_access_points.
Qed.

Lemma blind_call op : blind (call env repr op).
Proof.
  destruct op; unfold call, block_client, unblock_client; blind_step;
    try apply blind_ret;
    auto using blind_connect, blind_disconnect, blind_get_clients,
      blind_get_client_by_mac, blind_get_access_points,
      blind_get_ap_name_by_mac, blind_stamgr, blind_set_client_name,
      blind_test_connection.
Qed.

End BlindMethods.

(** ** Protocol selection *)

(** C2: on an instance constructed with an API key, [get_clients] and
    [get_access_points] log nothing but requests to URLs that start with
    the host followed by [/proxy/network/api/s/{site}/]; on an instance
    constructed without one (username and password only) they log
    nothing but refreshes of the aiounifi controller's tables, hence no
    request to a UniFi OS URL.  This holds whatever the session and
    controller fields, the sessions, the world and the earlier log. *)
Theorem listings_follow_the_credential {W} (env : Env W)
    (h : string) (u p : option string) (s : string) (v : bool)
    (sess : option nat) (ctl : option Controller)
    (hp : list ClientSession) (w : W) (lg : list LogEntry) :
  (forall key,
      let st := Build_State
                  (with_fields (__init__ h u p (Some key) s v) sess ctl)
                  hp w lg in
      (exists new, log (snd (get_clients env st)) = (lg ++ new)%list /\
                   Forall (os_entry h s) new) /\
      (exists new, log (snd (get_access_points env st)) = (lg ++ new)%list /\
                   Forall (os_entry h s) new)) /\
  (let st := Build_State (with_fields (__init__ h u p None s v) sess ctl)
               hp w lg in
   (exists new, log (snd (get_clients env st)) = (lg ++ new)%list /\
                Forall legacy_entry new) /\
   (exists new, log (snd (get_access_points env st)) = (lg ++ new)%list /\
                Forall legacy_entry new)).
Proof.
  split.
  - intros key st.
    assert (Hm : os_mode h s (self st)) by (repeat split).
    split.
    + exact (proj2 (os_get_clients env h s st Hm)).
    + exact (proj2 (os_get_access_points env h s st Hm)).
  - intros st.
    assert (Hm : legacy_mode (self st)) by reflexivity.
    split.
    + exact (proj2 (legacy_get_clients env st Hm)).
    + exact (proj2 (legacy_get_access_points env st Hm)).
Qed.

(** C10: an instance constructed with an API key and with a username and
    password runs in UniFi OS mode, the mode being decided by the API
    key alone; each of its operations logs only UniFi OS requests and
    never a call of the aiounifi controller (neither its construction
    nor login nor table refresh), and another username and password
    would change neither
    the result nor the log, the sessions or the world: they are never
    used. *)
Theorem api_key_takes_precedence {W} (env : Env W) (repr : json -> string)
    (h : string) (u p : option string) (key : string) (s : string) (v : bool)
    (sess : option nat) (ctl : option Controller)
    (hp : list ClientSession) (w : W) (lg : list LogEntry) (op : Op) :
  let st := Build_State (with_fields (__init__ h u p (Some key) s v) sess ctl)
              hp w lg in
  (forall ak, is_unifi_os (__init__ h u p ak s v) =
              match ak with Some _ => true | None => false end) /\
  is_unifi_os (self st) = true /\
  (exists new, log (snd (call env repr op st)) = (lg ++ new)%list /\
               Forall (os_entry h s) new) /\
  (forall u' p',
      call env repr op
        (Build_State (with_fields (__init__ h u' p' (Some key) s v) sess ctl)
           hp w lg) =
      (fst (call env repr op st), relogin u' p' (snd (call env repr op st)))).
Proof.
  intros st. split; [reflexivity|]. split; [reflexivity|]. split.
  - assert (Hm : os_mode h s (self st)) by (repeat split).
    exact (proj2 (os_call env repr h s op st Hm)).
  - intros u' p'.
    exact (proj1 (blind_call env repr op u' p' st eq_refl)).
Qed.

(** ** The connection probe *)

Lemma nth_error_snoc_ge {A} (l : list A) (x y : A) (i : nat) :
  length l <= i -> nth_error (l ++ [x]) i = Some y -> i = length l /\ y = x.
Proof.
  revert i. induction l as [|z l IH]; intros i Hi Hn; cbn in *.
  - destruct i as [|i]; cbn in Hn; [now injection Hn as <-|].
    destruct i; discriminate.
  - destruct i as [|i]; [lia|]. cbn in Hn.
    destruct (IH i ltac:(lia) Hn) as [-> ->]. now split.
Qed.

Lemma In_skipn_nth {A} (n : nat) (l : list A) (x : A) :
  In x (skipn n l) -> exists i, n <= i /\ nth_error l i = Some x.
Proof.
  revert l. induction n as [|n IH]; intros l Hin.
  - apply In_nth_error in Hin as [i Hi]. exists i. split; [lia | exact Hi].
  - destruct l as [|y l]; [destruct Hin|]. cbn in Hin.
    destruct (IH l Hin) as (i & Hi & Hn). exists (S i). split; [lia | exact Hn].
Qed.

Lemma nth_error_ge_none {A} (l : list A) (y : A) (i : nat) :
  length l <= i -> nth_error l i = Some y -> False.
Proof.
  intros Hi Hn. apply nth_error_None in Hi. congruence.
Qed.

Section Probe.

Context {W : Type} (env : Env W).

(** After [disconnect], a state that owned its sessions from [n] on
    has them all closed. *)
Lemma disconnected_all_closed (n : nat) (st : State W) :
  owned n st ->
  forall sid s, n <= sid ->
    nth_error (heap (disconnected st)) sid = Some s -> closed s = true.
Proof.
  intros Hown sid s Hn Hs.
  destruct (closed s) eqn:Hc; [reflexivity|].
  destruct (disconnected_spec st) as (_ & _ & _ & _ & _ & Hopen).
  destruct (Hopen sid s Hs Hc) as [Hold Hne].
  elim Hne. now apply (Hown sid s).
Qed.

Lemma owned_disconnected (n : nat) (st : State W) :
  owned n st -> owned n (disconnected st).
Proof.
  intros Hown sid s Hn Hs Hc.
  rewrite (disconnected_all_closed n st Hown sid s Hn Hs) in Hc.
  discriminate.
Qed.

Lemma disconnected_config (st : State W) :
  same_config (self st) (self (disconnected st)).
Proof.
  unfold disconnected.
  destruct (_session (self st)) as [sid|]; [|repeat split].
  destruct (nth_error (heap st) sid) as [s|]; [|repeat split].
  destruct (closed s); repeat split.
Qed.

Lemma connect_owned (st : State W) :
  wp (connect env) st (fun r st' =>
    (exists b, r = Ok b) /\ owned (length (heap st)) st' /\
    same_config (self st) (self st')).
Proof.
  unfold connect.
  wp_steps; try wp_disc; wp_steps.
  all: split; [eexists; reflexivity|].
  all: split;
    [| try (eapply same_config_trans; [|apply disconnected_config]);
       repeat split].
  all: repeat apply owned_disconnected.
  all: intros sid x Hn Hs Hc; cbn [heap self with_fields _session] in *.
  all: first [ exfalso; eapply nth_error_ge_none; eassumption
             | destruct (nth_error_snoc_ge _ _ _ _ Hn Hs) as [-> ->];
               reflexivity ].
Qed.

Lemma get_clients_reads_only : reads_only (get_clients env).
Proof.
  intros st. unfold get_clients, controller_initialize.
  wp_steps; repeat split; auto.
Qed.

Lemma get_access_points_reads_only : reads_only (get_access_points env).
Proof.
  intros st. unfold get_access_points, controller_initialize.
  wp_steps; repeat split; auto.
Qed.

Lemma owned_frame (n : nat) (st st' : State W) :
  heap st' = heap st -> _session (self st') = _session (self st) ->
  owned n st -> owned n st'.
Proof. unfold owned. intros -> ->. auto. Qed.

(** The body of [test_connection] before its [finally]: it always ends
    with one of the two result dicts and owns its sessions. *)
Lemma probe_body (st : State W) :
  wp (try_except
        (bind (connect env) (fun connected =>
           if negb connected then
             ret (JDict [("connected", JBool false);
                         ("error", JStr "Failed to connect to UniFi controller")])
           else
             bind (get_clients env) (fun clients =>
             bind (get_access_points env) (fun aps =>
             bind (lift (table_len clients)) (fun client_count =>
             bind (lift (table_len aps)) (fun ap_count =>
             bind get_self (fun c =>
             ret (JDict [("connected", JBool true);
                         ("client_count", JInt client_count);
                         ("ap_count", JInt ap_count);
                         ("site", JStr (site c))]))))))))
        (fun e =>
           ret (JDict [("connected", JBool false);
                       ("error", JStr (str_exn e))])))
     st
     (fun r st' =>
        (exists d, r = Ok (JDict d) /\
                   (probe_success (site (self st)) d \/ probe_failure d)) /\
        owned (length (heap st)) st').
Proof.
  apply wp_try_except, wp_bind.
  eapply wp_mono; [apply connect_owned|].
  intros r st1 ((b & ->) & Hown1 & Hcfg1).
  destruct b; cbn [negb].
  2:{ apply wp_ret. split; [|assumption].
      eexists. split; [reflexivity|]. right. eexists. reflexivity. }
  apply wp_bind.
  eapply wp_mono; [apply get_clients_reads_only|].
  intros r2 st2 (Hh2 & Hs2 & Hcfg2).
  assert (Hown2 : owned (length (heap st)) st2) by (eapply owned_frame; eassumption).
  destruct r2 as [clients|e].
  2:{ apply wp_ret. split; [|assumption].
      eexists. split; [reflexivity|]. right. eexists. reflexivity. }
  apply wp_bind.
  eapply wp_mono; [apply get_access_points_reads_only|].
  intros r3 st3 (Hh3 & Hs3 & Hcfg3).
  assert (Hown3 : owned (length (heap st)) st3) by (eapply owned_frame; eassumption).
  destruct r3 as [aps|e].
  2:{ apply wp_ret. split; [|assumption].
      eexists. split; [reflexivity|]. right. eexists. reflexivity. }
  wp_steps.
  all: split; [|assumption].
  all: eexists; split; [reflexivity|].
  all: try (right; eexists; reflexivity).
  left. exists a, a0.
  destruct Hcfg1 as (_ & _ & _ & _ & S1 & _).
  destruct Hcfg2 as (_ & _ & _ & _ & S2 & _).
  destruct Hcfg3 as (_ & _ & _ & _ & S3 & _).
  now rewrite S3, S2, S1.
Qed.

End Probe.

(** C1: [connect] never raises: from every state and whatever the
    environment answers it returns a boolean.  When it returns [False]
    the instance holds no session and no controller, as a fresh
    instance; it returns [True] only when every outside call it made
    returned normally and the probe was answered 200, so any network
    error, other status or login error gives [False]. *)
Theorem connect_reports_failure_as_false {W} (env : Env W) (st : State W) :
  exists b st' new,
    connect env st = (Ok b, st') /\ log st' = (log st ++ new)%list /\
    if b then Forall clean new
    else _session (self st') = None /\ controller (self st') = None.
Proof.
  pose proof (connect_wp env st) as H. unfold wp in H.
  destruct (connect env st) as [r st']. cbn [fst snd] in H.
  destruct H as (b & new & -> & Hl & Hf & Ht).
  exists b, st', new. split; [reflexivity|]. split; [exact Hl|].
  destruct b; auto.
Qed.

(** Case analysis on what the steps of [test_connection] gave. *)
Ltac probe_cases :=
  repeat match goal with
         | H : _ /\ _ |- _ => destruct H
         | H : _ \/ _ |- _ => destruct H
         | H : exists _, _ |- _ => destruct H
         | H : Ok _ = Ok _ |- _ => injection H as H
         | H : Raise _ = Raise _ |- _ => injection H as H
         | H : ?x = _ |- _ => is_var x; subst x
         | H : _ = ?x |- _ => is_var x; subst x
         end;
  try congruence.

(** What [test_connection] leaves behind, whatever its result. *)
Lemma test_connection_sessions {W} (env : Env W) (st : State W) :
  exists d st',
    test_connection env st = (Ok (JDict d), st') /\
    (probe_success (site (self st)) d \/ probe_failure d) /\
    _session (self st') = None /\ controller (self st') = None /\
    Forall (fun s => closed s = true) (skipn (length (heap st)) (heap st')).
Proof.
  assert (H : wp (test_connection env) st (fun r st' =>
            (exists d, r = Ok (JDict d) /\
               (probe_success (site (self st)) d \/ probe_failure d)) /\
            _session (self st') = None /\ controller (self st') = None /\
            (forall sid s, length (heap st) <= sid ->
               nth_error (heap st') sid = Some s -> closed s = true))).
  { unfold test_connection. apply wp_try_finally.
    eapply wp_mono; [apply probe_body|].
    intros r st1 (Hr & Hown). apply wp_disconnect.
    destruct (disconnected_spec st1) as (Hs & Hc & _).
    split; [exact Hr|]. split; [exact Hs|]. split; [exact Hc|].
    now apply disconnected_all_closed. }
  unfold wp in H. destruct (test_connection env st) as [r st'].
  cbn [fst snd] in H.
  destruct H as ((d & -> & Hd) & Hs & Hc & Hcl).
  exists d, st'. repeat (split; [assumption || reflexivity|]).
  apply Forall_forall. intros s Hin.
  destruct (In_skipn_nth _ _ _ Hin) as (sid & Hle & Hn).
  exact (Hcl sid s Hle Hn).
Qed.

(** C7: [test_connection] never raises and always returns one of two
    dicts.  It returns the success dict exactly when [connect] returns
    [True] and [get_clients], run next, and [get_access_points], run
    after it, both return a table that has a length; the dict then
    carries these two lengths as client count and access-point count,
    and the site of the instance.  It returns the failure dict
    otherwise: with the message "Failed to connect to UniFi controller"
    when [connect] returns [False], and with the text of the exception
    when a later step raises.  On every path the call ends with
    [disconnect], run on the state the last of these steps left: the
    instance ends with no session and no controller, and every session
    opened during the call is closed. *)
Theorem test_connection_always_disconnects {W} (env : Env W) (st : State W) :
  let connected := connect env st in
  let listed := get_clients env (snd connected) in
  let devices := get_access_points env (snd listed) in
  exists d st',
    test_connection env st = (Ok (JDict d), st') /\
    (probe_success (site (self st)) d \/ probe_failure d) /\
    (forall client_count ap_count,
        d = [("connected", JBool true); ("client_count", JInt client_count);
             ("ap_count", JInt ap_count); ("site", JStr (site (self st)))] <->
        fst connected = Ok true /\
        exists clients aps,
          fst listed = Ok clients /\ fst devices = Ok aps /\
          table_len clients = Ok client_count /\
          table_len aps = Ok ap_count) /\
    (forall msg,
        d = [("connected", JBool false); ("error", JStr msg)] <->
        (fst connected = Ok false /\
         msg = "Failed to connect to UniFi controller") \/
        (fst connected = Ok true /\
         exists e, probe_raised (fst listed) (fst devices) e /\
                   msg = str_exn e)) /\
    st' = disconnected
            match fst connected, fst listed with
            | Ok true, Ok _ => snd devices
            | Ok true, Raise _ => snd listed
            | _, _ => snd connected
            end /\
    _session (self st') = None /\ controller (self st') = None /\
    Forall (fun s => closed s = true) (skipn (length (heap st)) (heap st')).
Proof.
  intros connected listed devices.
  destruct (test_connection_sessions env st)
    as (d & st' & Heq & Hshape & Hs & Hc & Hcl).
  exists d, st'. split; [exact Heq|]. split; [exact Hshape|].
  pose proof (connect_wp env st) as Hb. unfold wp in Hb.
  destruct Hb as (b & new & Hb & _).
  unfold test_connection, try_finally, try_except, bind, lift, ret,
    get_self in Heq.
  subst connected listed devices.
  destruct (connect env st) as [r1 st1]. cbn [fst snd] in *. subst r1.
  destruct b; cbn [negb] in Heq.
  - destruct (get_clients env st1) as [[clients|e1] st2]; cbn [fst snd] in *;
      [destruct (get_access_points env st2) as [[aps|e2] st3];
       cbn [fst snd] in *;
       [destruct (table_len clients) as [n|e3] eqn:En;
        [destruct (table_len aps) as [m|e4] eqn:Em|]|]|].
    all: cbn [fst snd] in Heq; rewrite disconnect_run in Heq;
      injection Heq as <- <-.
    all: destruct Hshape as [(n' & m' & Hd)|(msg' & Hd)]; try discriminate Hd.
    all: try (injection Hd as _ _ Hsite; rewrite Hsite).
    all: unfold probe_raised.
    all: repeat match goal with
                | |- _ /\ _ => split
                end; try assumption; try reflexivity.
    all: try (intros ? ?); try (intros ?); split; intros H.
    all: try discriminate H.
    all: try (injection H as <- <-).
    all: try (injection H as <-).
    all: try solve [eauto 15].
    all: probe_cases.
  - cbn [fst snd] in Heq. rewrite disconnect_run in Heq.
    injection Heq as <- <-.
    repeat match goal with
           | |- _ /\ _ => split
           end; try assumption; try reflexivity.
    + intros n m. split; intros H; [discriminate H | probe_cases].
    + intros msg. split; intros H; [injection H as <-; now left | probe_cases].
Qed.

(** ** Dicts and the loops that fill them *)

Lemma setitem_In (k : string) (v : json) (d : pydict) (k' : string) (v' : json) :
  In (k', v') (Py.setitem k v d) -> (k' = k /\ v' = v) \/ In (k', v') d.
Proof.
  induction d as [|[k0 v0] d IH]; cbn.
  - intros [[= <- <-]|[]]. now left.
  - destruct (String.eqb_spec k0 k) as [->|Hne]; cbn.
    + intros [[= <- <-]|H]; [now left | right; now right].
    + intros [H|H]; [right; now left|].
      destruct (IH H) as [?|?]; [now left | right; now right].
Qed.

Lemma setitem_keys (k : string) (v : json) (d : pydict) (k' : string) :
  In k' (Py.keys (Py.setitem k v d)) <-> k' = k \/ In k' (Py.keys d).
Proof.
  unfold Py.keys. induction d as [|[k0 v0] d IH]; cbn.
  - intuition.
  - destruct (String.eqb_spec k0 k) as [->|Hne]; cbn.
    + intuition.
    + rewrite IH. intuition.
Qed.

Lemma setitem_NoDup (k : string) (v : json) (d : pydict) :
  NoDup (Py.keys d) -> NoDup (Py.keys (Py.setitem k v d)).
Proof.
  unfold Py.keys. induction d as [|[k0 v0] d IH]; cbn; intros H.
  - constructor; [intros []|constructor].
  - inversion H as [|? ? Hn Hd]; subst.
    destruct (String.eqb_spec k0 k) as [->|Hne]; cbn.
    + now constructor.
    + constructor; [|now apply IH].
      intros Hin. apply (setitem_keys k v d k0) in Hin.
      destruct Hin as [->|Hin]; [now apply Hne | now apply Hn].
Qed.

Lemma negb_eqb_empty (s : string) : negb (String.eqb s "") = true <-> s <> "".
Proof.
  destruct (String.eqb_spec s ""); cbn; split; congruence.
Qed.

Section Loops.

(** The keys [clients_loop] adds are the usable MACs of the raw
    clients, and every entry it adds is the [client_entry] of a raw
    client. *)
Lemma clients_loop_spec (raw : list json) :
  forall d0 d,
    clients_loop raw d0 = Ok d ->
    (NoDup (Py.keys d0) -> NoDup (Py.keys d)) /\
    (forall k, In k (Py.keys d) <->
               In k (Py.keys d0) \/ exists c, In c raw /\ usable_mac c k) /\
    (forall k v, In (k, v) d ->
                 In (k, v) d0 \/
                 exists c, In c raw /\ usable_mac c k /\
                           client_entry c k = Ok v).
Proof.
  induction raw as [|c raw IH]; intros d0 d H; cbn in H.
  - injection H as <-. split; [auto|]. split.
    + intros k. split; [now left | intros [?|(c & [] & _)]; assumption].
    + intros k v Hin. now left.
  - destruct (Py.get c "mac" (JStr "")) as [m|e] eqn:Eg; cbn in H; [|discriminate].
    destruct m as [| | | |x| |]; cbn in H; try discriminate.
    set (mac := PyStr.lower x) in *.
    destruct (negb (String.eqb mac "")) eqn:Ene.
    + apply negb_eqb_empty in Ene.
      destruct (client_entry c mac) as [entry|e] eqn:Ee; cbn in H; [|discriminate].
      destruct (IH _ _ H) as (Hnd & Hk & Hv).
      assert (Hu : usable_mac c mac).
      { exists x. split; [exact Eg|]. now split. }
      split; [|split].
      * intros Hd. apply Hnd. now apply setitem_NoDup.
      * intros k. rewrite Hk, setitem_keys. split.
        -- intros [[->|Hin]|(c' & Hc' & Hu')].
           ++ right. exists c. split; [now left | assumption].
           ++ now left.
           ++ right. exists c'. split; [now right | assumption].
        -- intros [Hin|(c' & [<-|Hc'] & Hu')].
           ++ left. now right.
           ++ left. left. destruct Hu as (m1 & E1 & -> & _).
              destruct Hu' as (m2 & E2 & -> & _). congruence.
           ++ right. exists c'. now split.
      * intros k v Hin. destruct (Hv k v Hin) as [Hs|(c' & Hc' & Hu' & He')].
        -- apply setitem_In in Hs. destruct Hs as [[-> ->]|Hs]; [|now left].
           right. exists c. split; [now left|]. now split.
        -- right. exists c'. split; [now right|]. now split.
    + apply negb_false_iff, String.eqb_eq in Ene.
      destruct (IH _ _ H) as (Hnd & Hk & Hv).
      split; [assumption|]. split.
      * intros k. rewrite Hk. split.
        -- intros [Hin|(c' & Hc' & Hu')]; [now left|].
           right. exists c'. split; [now right | assumption].
        -- intros [Hin|(c' & [<-|Hc'] & Hu')]; [now left| |].
           ++ exfalso. destruct Hu' as (m2 & E2 & -> & Hne).
              apply Hne. rewrite Eg in E2. injection E2 as <-.
              exact Ene.
           ++ right. exists c'. now split.
      * intros k v Hin. destruct (Hv k v Hin) as [Hs|(c' & Hc' & Hu' & He')];
          [now left|].
        right. exists c'. split; [now right|]. now split.
Qed.

Lemma ap_entry_record (device : json) (mac : string) (v : json) :
  ap_entry device mac = Ok v -> ap_record v.
Proof.
  unfold ap_entry. intros H.
  destruct (Py.get device "name" JNull) as [n|]; cbn in H; [|discriminate].
  destruct (Py.get device "model" JNull) as [m|]; cbn in H; [|discriminate].
  destruct (Py.get device "type" JNull) as [t|]; cbn in H; [|discriminate].
  injection H as <-. now exists mac, n, m, t.
Qed.

(** The same for [aps_loop], which keeps the devices of type [uap]
    only. *)
Lemma aps_loop_spec (raw : list json) :
  forall d0 d,
    aps_loop raw d0 = Ok d ->
    (NoDup (Py.keys d0) -> NoDup (Py.keys d)) /\
    (forall k, In k (Py.keys d) <->
               In k (Py.keys d0) \/
               exists c, In c raw /\ is_uap c /\ usable_mac c k) /\
    (forall k v, In (k, v) d ->
                 In (k, v) d0 \/
                 exists c, In c raw /\ is_uap c /\ usable_mac c k /\
                           ap_entry c k = Ok v).
Proof.
  induction raw as [|c raw IH]; intros d0 d H; cbn in H.
  - injection H as <-. split; [auto|]. split.
    + intros k. split; [now left | intros [?|(c & [] & _)]; assumption].
    + intros k v Hin. now left.
  - destruct (Py.get c "type" JNull) as [t|e] eqn:Et; cbn in H; [|discriminate].
    destruct (Py.eq_str t "uap") eqn:Eu.
    2:{ destruct (IH _ _ H) as (Hnd & Hk & Hv).
        split; [assumption|]. split.
        - intros k. rewrite Hk. split.
          + intros [Hin|(c' & Hc' & Hu')]; [now left|].
            right. exists c'. split; [now right | assumption].
          + intros [Hin|(c' & [<-|Hc'] & (t' & Et' & Eu') & Hu')];
              [now left| |].
            * rewrite Et in Et'. injection Et' as <-. congruence.
            * right. exists c'. split; [assumption|].
              split; [now exists t' | assumption].
        - intros k v Hin.
          destruct (Hv k v Hin) as [Hs|(c' & Hc' & Hu' & He')]; [now left|].
          right. exists c'. split; [now right | now split]. }
    assert (Huap : is_uap c) by now exists t.
    destruct (Py.get c "mac" (JStr "")) as [m|e] eqn:Eg; cbn in H; [|discriminate].
    destruct m as [| | | |x| |]; cbn in H; try discriminate.
    set (mac := PyStr.lower x) in *.
    destruct (negb (String.eqb mac "")) eqn:Ene.
    + apply negb_eqb_empty in Ene.
      destruct (ap_entry c mac) as [entry|e] eqn:Ee; cbn in H; [|discriminate].
      destruct (IH _ _ H) as (Hnd & Hk & Hv).
      assert (Hu : usable_mac c mac).
      { exists x. split; [exact Eg|]. now split. }
      split; [|split].
      * intros Hd. apply Hnd. now apply setitem_NoDup.
      * intros k. rewrite Hk, setitem_keys. split.
        -- intros [[->|Hin]|(c' & Hc' & Hu')].
           ++ right. exists c. split; [now left | now split].
           ++ now left.
           ++ right. exists c'. split; [now right | assumption].
        -- intros [Hin|(c' & [<-|Hc'] & Hp' & Hu')].
           ++ left. now right.
           ++ left. left. destruct Hu as (m1 & E1 & -> & _).
              destruct Hu' as (m2 & E2 & -> & _). congruence.
           ++ right. exists c'. now split.
      * intros k v Hin. destruct (Hv k v Hin) as [Hs|(c' & Hc' & Hu' & He')].
        -- apply setitem_In in Hs. destruct Hs as [[-> ->]|Hs]; [|now left].
           right. exists c. split; [now left|]. now split.
        -- right. exists c'. split; [now right|]. now split.
    + apply negb_false_iff, String.eqb_eq in Ene.
      destruct (IH _ _ H) as (Hnd & Hk & Hv).
      split; [assumption|]. split.
      * intros k. rewrite Hk. split.
        -- intros [Hin|(c' & Hc' & Hu')]; [now left|].
           right. exists c'. split; [now right | assumption].
        -- intros [Hin|(c' & [<-|Hc'] & Hp' & Hu')]; [now left| |].
           ++ exfalso. destruct Hu' as (m2 & E2 & -> & Hne).
              apply Hne. rewrite Eg in E2. injection E2 as <-.
              exact Ene.
           ++ right. exists c'. now split.
      * intros k v Hin. destruct (Hv k v Hin) as [Hs|(c' & Hc' & Hu' & He')];
          [now left|].
        right. exists c'. split; [now right|]. now split.
Qed.

(** In UniFi OS mode, when the controller answers the listing request
    with the raw records, the method returns what its loop makes of
    them. *)
Lemma get_clients_answered {W} (env : Env W) (st : State W) (raw : list json) :
  is_unifi_os (self st) = true ->
  answers env st "/stat/sta" raw ->
  fst (get_clients env st) =
  match clients_loop raw [] with
  | Ok d => Ok (Dict d)
  | Raise e => Raise e
  end.
Proof.
  intros Hos (sid & s & resp & w & data & field &
              Hs & Hn & Hc & Hsend & Hst & Hb & Hg & Hi).
  unfold get_clients, session_request, bind, get_self, try_except, outside,
    lift, ret, raise.
  rewrite Hs, Hos, Hn, Hc, Hsend. cbn.
  rewrite Hst, Hb. cbn. rewrite Hg, Hi.
  destruct (clients_loop raw []); reflexivity.
Qed.

Lemma get_access_points_answered {W} (env : Env W) (st : State W)
    (raw : list json) :
  is_unifi_os (self st) = true ->
  answers env st "/stat/device" raw ->
  fst (get_access_points env st) =
  match aps_loop raw [] with
  | Ok d => Ok (Dict d)
  | Raise e => Raise e
  end.
Proof.
  intros Hos (sid & s & resp & w & data & field &
              Hs & Hn & Hc & Hsend & Hst & Hb & Hg & Hi).
  unfold get_access_points, session_request, bind, get_self, try_except,
    outside, lift, ret, raise.
  rewrite Hs, Hos, Hn, Hc, Hsend. cbn.
  rewrite Hst, Hb. cbn. rewrite Hg, Hi.
  destruct (aps_loop raw []); reflexivity.
Qed.

End Loops.

(** ** Enumeration results *)

Lemma contains_lower (x : ascii) (s : string) :
  (nat_of_ascii x < 65)%nat ->
  PyStr.contains x (PyStr.lower s) = PyStr.contains x s.
Proof.
  intros Hx. induction s as [|c s IH]; cbn; [reflexivity|].
  now rewrite IH, lower_ascii_keeps.
Qed.




Lemma normalized_is_not_dashed (spelling : string) :
  String.eqb "aa-bb-cc-dd-ee-ff" (normalize_mac spelling) = false.
Proof.
  destruct (String.eqb _ _) eqn:E; [|reflexivity].
  apply String.eqb_eq in E.
  destruct (normalize_mac_canonical spelling) as (_ & Hd & _).
  rewrite <- E in Hd. discriminate Hd.
Qed.

(** C8 fails on the code: the enumerations lowercase the MAC of a raw
    record and leave its separators.  A client the controller lists as
    [AA-BB-CC-DD-EE-FF] is stored under the key [aa-bb-cc-dd-ee-ff],
    which is not in canonical form, and [get_client_by_mac], which
    looks the colon form up, then finds no client, by whichever
    spelling the MAC is given.  An access point listed in the same way
    is stored under the dashed key too, and [get_ap_name_by_mac]
    answers with the MAC instead of the name of the access point. *)
Theorem enumeration_key_keeps_separators :
  let env := answering (one_client "AA-BB-CC-DD-EE-FF" JNull) in
  let ap_env :=
    answering (one_ap "AA-BB-CC-DD-EE-FF" (JStr "Lobby-AP") (JStr "U6-Pro")) in
  let st := connected_os tt in
  fst (get_clients env st) =
  Ok (Dict [("aa-bb-cc-dd-ee-ff",
             JDict [("mac", JStr "aa-bb-cc-dd-ee-ff"); ("ap_mac", JNull);
                    ("ip", JNull); ("last_seen", JNull); ("rssi", JNull);
                    ("hostname", JNull); ("name", JNull); ("tx_rate", JNull);
                    ("rx_rate", JNull); ("channel", JNull); ("radio", JNull);
                    ("uptime", JNull); ("tx_bytes", JNull);
                    ("rx_bytes", JNull); ("blocked", JBool false)])]) /\
  ~ canonical_mac "aa-bb-cc-dd-ee-ff" /\
  "aa-bb-cc-dd-ee-ff" <> normalize_mac "AA-BB-CC-DD-EE-FF" /\
  (forall spelling, fst (get_client_by_mac env spelling st) = Ok None) /\
  fst (get_access_points ap_env st) =
  Ok (Dict [("aa-bb-cc-dd-ee-ff",
             JDict [("mac", JStr "aa-bb-cc-dd-ee-ff");
                    ("name", JStr "Lobby-AP"); ("model", JStr "U6-Pro");
                    ("type", JStr "uap")])]) /\
  fst (get_ap_name_by_mac ap_env "AA-BB-CC-DD-EE-FF" st) =
  Ok (JStr "aa:bb:cc:dd:ee:ff").
Proof.
  cbv zeta. split; [reflexivity|]. split.
  { intros (_ & H & _). discriminate H. }
  split; [discriminate|]. split; [|split; reflexivity].
  intros spelling. unfold get_client_by_mac, bind, ret.
  destruct (get_clients _ _) as [r st'] eqn:E.
  vm_compute in E. injection E as <- <-.
  cbn [fst table_get Py.lookup option_map].
  now rewrite normalized_is_not_dashed.
Qed.

(** ** Rates *)





(** ** Access-point labels *)

Lemma lookup_In (k : string) (d : pydict) (v : json) :
  Py.lookup k d = Some v -> In (k, v) d.
Proof.
  induction d as [|[k0 v0] d IH]; cbn; [discriminate|].
  destruct (String.eqb_spec k0 k) as [->|Hne].
  - intros [= ->]. now left.
  - intros H. right. now apply IH.
Qed.

Section Labels.

Context {W : Type} (env : Env W).

(** Every value of the dict [get_access_points] returns is a record
    built by its loop. *)
Lemma get_access_points_records (st : State W) :
  wp (get_access_points env) st (fun r _ =>
    forall d k v, r = Ok (Dict d) -> In (k, v) d -> ap_record v).
Proof.
  unfold get_access_points, controller_initialize.
  wp_steps; intros d k v; try discriminate.
  intros [= <-] Hin.
  match goal with
  | H : aps_loop _ [] = Ok _ |- _ =>
      destruct (aps_loop_spec _ _ _ H) as (_ & _ & Hv)
  end.
  destruct (Hv k v Hin) as [[]|(c & _ & _ & _ & He)].
  now apply (ap_entry_record c k).
Qed.

Lemma or_chain (a b c : json) :
  Py.or (Py.or a b) c =
  if Py.truthy a then a else if Py.truthy b then b else c.
Proof.
  unfold Py.or. destruct (Py.truthy a) eqn:Ea; [now rewrite Ea|].
  reflexivity.
Qed.

End Labels.

(** C5, as the code has it: [get_ap_name_by_mac] never raises.  When the
    enumeration succeeds it looks the normalized MAC up and returns the
    record's name if it has one, else its model if it has one, else the
    normalized MAC, which is also the answer when no record is found.
    When the enumeration fails, as it does on an instance that is not
    connected, it returns the MAC as it was given, not normalized. *)
Theorem ap_name_fallback_chain {W} (env : Env W) (ap_mac : string) (st : State W) :
  let normalized_mac := normalize_mac ap_mac in
  let enumeration := get_access_points env st in
  get_ap_name_by_mac env ap_mac st =
  (Ok match fst enumeration with
      | Ok aps =>
          match table_get aps normalized_mac with
          | Some ap => ap_label ap normalized_mac
          | None => JStr normalized_mac
          end
      | Raise _ => JStr ap_mac
      end,
   snd enumeration) /\
  match _session (self st) with
  | None => fst enumeration = Raise not_connected
  | Some _ => True
  end.
Proof.
  intros nm enum. split.
  - pose proof (get_access_points_records env st) as Hrec. unfold wp in Hrec.
    unfold get_ap_name_by_mac, try_except, bind. subst enum.
    destruct (get_access_points env st) as [[aps|e] st1]; cbn [fst snd] in *;
      [|reflexivity].
    fold nm. destruct aps as [d|hd]; cbn [table_get].
    + destruct (Py.lookup nm d) as [v|] eqn:El; cbn [option_map]; [|reflexivity].
      destruct (Hrec d nm v eq_refl (lookup_In _ _ _ El))
        as (mac & name & model & type & ->).
      cbn. unfold ret. rewrite or_chain. reflexivity.
    + destruct (handler_lookup nm (items hd)) as [o|]; cbn [option_map];
        [|reflexivity].
      unfold ret. rewrite or_chain. reflexivity.
  - subst enum. unfold get_access_points, bind, get_self.
    now destruct (_session (self st)).
Qed.

(** C5 as stated fails: on an instance that is not connected the
    enumeration raises and the dash-separated upper-case MAC comes back
    unchanged, which is not its normalized form. *)
Lemma ap_name_on_failure_is_not_normalized :
  fst (get_access_points unreachable (fresh_os tt)) = Raise not_connected /\
  fst (get_ap_name_by_mac unreachable "AA-BB-CC-DD-EE-FF" (fresh_os tt)) =
    Ok (JStr "AA-BB-CC-DD-EE-FF") /\
  JStr "AA-BB-CC-DD-EE-FF" <> JStr (normalize_mac "AA-BB-CC-DD-EE-FF").
Proof. repeat split. discriminate. Qed.

(** The three found cases of the fallback chain on the records of the
    specification: name and model, model only, neither. *)
Lemma ap_name_examples :
  let run name model :=
    fst (get_ap_name_by_mac (answering (one_ap "aa:bb:cc:dd:ee:ff" name model))
           "AA-BB-CC-DD-EE-FF" (connected_os tt)) in
  run (JStr "Lobby-AP") (JStr "U6-Pro") = Ok (JStr "Lobby-AP") /\
  run JNull (JStr "U6-Pro") = Ok (JStr "U6-Pro") /\
  run JNull JNull = Ok (JStr "aa:bb:cc:dd:ee:ff").
Proof. repeat split. Qed.

(** ** Control actions *)

Section Control.

Context {W : Type} (env : Env W).

(** What [block_client] and [unblock_client] do on an instance that
    holds an open session: one [POST] to [cmd/stamgr] whose [mac] is
    the lowercased argument, and [True] exactly for status 200. *)
Lemma stamgr_run (cmd mac_address : string) (st : State W) sid s :
  _session (self st) = Some sid ->
  nth_error (heap st) sid = Some s -> closed s = false ->
  let c := self st in
  let req :=
    {| req_method := POST;
       req_url := if is_unifi_os c
                  then host c ++ "/proxy/network/api/s/" ++ site c ++ "/cmd/stamgr"
                  else host c ++ "/api/s/" ++ site c ++ "/cmd/stamgr";
       req_json := Some (JDict [("cmd", JStr cmd);
                                ("mac", JStr (PyStr.lower mac_address))]);
       req_headers := headers s |} in
  let answer := send env req (world st) in
  stamgr env cmd mac_address st =
  (Ok match fst answer with
      | Ok resp => (status resp =? 200)%Z
      | Raise _ => false
      end,
   Build_State (self st) (heap st) (snd answer)
     (log st ++ [(EvHttp req, answer_of responded (fst answer))])).
Proof.
  intros Hs Hn Hc c req answer.
  unfold stamgr, session_request, bind, get_self, try_except, outside, ret.
  rewrite Hs. cbv zeta. rewrite Hn, Hc.
  subst answer req c.
  destruct (send env _ (world st)) as [[resp|e] w]; cbn; [|reflexivity].
  destruct (status resp =? 200)%Z; reflexivity.
Qed.

End Control.

(** C3 fails on the code: [block_client] and [unblock_client] lowercase
    the MAC and leave its separators.  Run on [AA-BB-CC-DD-EE-FF]
    against a controller that answers 200, each returns [True] after
    one request whose payload MAC is [aa-bb-cc-dd-ee-ff], while the
    normalized form is [aa:bb:cc:dd:ee:ff]. *)
Theorem block_client_keeps_separators :
  let ok := answering {| status := 200; json_body := Ok JNull |} in
  let blocked := block_client ok "AA-BB-CC-DD-EE-FF" (connected_os tt) in
  let unblocked := unblock_client ok "AA-BB-CC-DD-EE-FF" (connected_os tt) in
  fst blocked = Ok true /\
  payloads_logged (log (snd blocked)) =
    [JDict [("cmd", JStr "block-sta"); ("mac", JStr "aa-bb-cc-dd-ee-ff")]] /\
  fst unblocked = Ok true /\
  payloads_logged (log (snd unblocked)) =
    [JDict [("cmd", JStr "unblock-sta"); ("mac", JStr "aa-bb-cc-dd-ee-ff")]] /\
  normalize_mac "AA-BB-CC-DD-EE-FF" = "aa:bb:cc:dd:ee:ff".
Proof. repeat split. Qed.

(** C6 fails on the code: [set_client_name] compares lowercased MACs
    and leaves the separators.  The registry knows the device as
    [aa:bb:cc:dd:ee:ff]; naming it by [AA-BB-CC-DD-EE-FF] does not find
    that entry and posts a second one, under [aa-bb-cc-dd-ee-ff], while
    naming it by [AA:BB:CC:DD:EE:FF] updates the entry and adds none. *)
Theorem set_client_name_misses_separated_mac :
  let dashed :=
    set_client_name registry no_repr "AA-BB-CC-DD-EE-FF" "Laptop"
      (connected_os one_user) in
  let colons :=
    set_client_name registry no_repr "AA:BB:CC:DD:EE:FF" "Laptop"
      (connected_os one_user) in
  fst dashed = Ok true /\
  methods_logged (log (snd dashed)) = [GET; POST] /\
  Registry.users (world (snd dashed)) =
    [JDict [("_id", JStr "u1"); ("mac", JStr "aa:bb:cc:dd:ee:ff");
            ("name", JStr "old")];
     JDict [("_id", JStr "u2"); ("mac", JStr "aa-bb-cc-dd-ee-ff");
            ("name", JStr "Laptop")]] /\
  fst colons = Ok true /\
  methods_logged (log (snd colons)) = [GET; PUT] /\
  Registry.users (world (snd colons)) =
    [JDict [("_id", JStr "u1"); ("mac", JStr "aa:bb:cc:dd:ee:ff");
            ("name", JStr "Laptop")]].
Proof. repeat split. Qed.

(** ** Naming a client twice *)

Lemma find_user_absent_app (l : list json) (u : json) (mac : string) :
  find_user l mac = Ok JNull -> find_user (l ++ [u]) mac = find_user [u] mac.
Proof.
  induction l as [|x l IH]; [reflexivity|]. cbn [find_user app].
  destruct (Py.get x "mac" (JStr "")) as [m|e] eqn:Eg; cbn [rbind]; [|discriminate].
  destruct (Py.lower m) as [k|e]; cbn [rbind]; [|discriminate].
  destruct (String.eqb k (PyStr.lower mac)); [|exact IH].
  intros [= ->]. discriminate Eg.
Qed.

(** On the registry model, for a MAC whose lowercased form no entry
    has: the first call posts one entry, the second finds it and takes
    the update path, so that two calls add exactly one entry. *)
Lemma set_client_name_twice (users : list json) (next : Z) (mac name : string) :
  find_user users mac = Ok JNull ->
  let st := connected_os {| Registry.users := users; Registry.next_id := next |} in
  let first := set_client_name registry no_repr mac name st in
  let second := set_client_name registry no_repr mac name (snd first) in
  fst first = Ok true /\ fst second = Ok true /\
  methods_logged (log (snd second)) = [GET; POST; GET; PUT] /\
  length (Registry.users (world (snd second))) = S (length users).
Proof.
  intros Habsent st first second.
  set (u := JDict [("_id", JStr ("u" ++ Py.str_of_Z next));
                   ("mac", JStr (PyStr.lower mac)); ("name", JStr name)]).
  assert (Hfirst : first =
            (Ok true,
             Build_State (self st) (heap st)
               {| Registry.users := (users ++ [u])%list;
                  Registry.next_id := (next + 1)%Z |}
               [(EvHttp {| req_method := GET; req_url := registry_url;
                           req_json := None;
                           req_headers := [("X-API-KEY", JStr "key")] |},
                 Responded 200);
                (EvHttp {| req_method := POST; req_url := registry_url;
                           req_json :=
                             Some (JDict [("mac", JStr (PyStr.lower mac));
                                          ("name", JStr name)]);
                           req_headers := [("X-API-KEY", JStr "key")] |},
                 Responded 200)])).
  { subst first st.
    unfold set_client_name, session_request, bind, get_self, try_except,
      outside, lift, ret, connected_os.
    cbn -[find_user PyStr.lower Py.str_of_Z String.append].
    rewrite Habsent. reflexivity. }
  assert (Hfound : find_user (users ++ [u]) mac = Ok u).
  { rewrite (find_user_absent_app users u mac Habsent). cbn.
    now rewrite lower_idem, String.eqb_refl. }
  assert (Haddr : existsb (Registry.addressed registry_url
                             (registry_url ++ "/" ++ "u" ++ Py.str_of_Z next))
                    (users ++ [u]) = true).
  { rewrite existsb_app. apply orb_true_iff. right. cbn.
    now rewrite String.eqb_refl. }
  subst second. rewrite Hfirst. cbn [fst snd].
  unfold set_client_name, session_request, bind, get_self, try_except,
    outside, lift, ret.
  cbn -[find_user PyStr.lower Py.str_of_Z String.append existsb
        Registry.addressed map].
  rewrite Hfound.
  cbn -[find_user PyStr.lower Py.str_of_Z String.append existsb
        Registry.addressed map].
  unfold Registry.serve.
  cbn -[find_user PyStr.lower Py.str_of_Z String.append existsb
        Registry.addressed map].
  change ("https://unifi" ++ "/proxy/network/api/s/" ++ "default" ++ "/rest/user")
    with registry_url.
  rewrite Haddr.
  cbn -[PyStr.lower Py.str_of_Z String.append Registry.addressed map].
  repeat split. now rewrite length_map, length_app, Nat.add_1_r.
Qed.

(** ** The theorems at concrete inputs *)

Lemma one_client_answers (mac : string) (tx_rate : json) (path : string) :
  answers (answering (one_client mac tx_rate)) (connected_os tt) path
    [JDict [("mac", JStr mac); ("tx_rate", tx_rate)]].
Proof.
  unfold answers. do 6 eexists. repeat split.
Defined.




(** [connect] at work: an unreachable controller, a rejected API key
    and a controller constructor that rejects its arguments give
    [False] and no session, an accepted key or login gives [True] and
    the session 0. *)
Example connect_examples :
  let run {W} (env : Env W) (st : State W) :=
    (fst (connect env st), _session (self (snd (connect env st)))) in
  run unreachable (fresh_os tt) = (Ok false, None) /\
  run unreachable (fresh_legacy tt) = (Ok false, None) /\
  run (answering {| status := 401; json_body := Ok JNull |}) (fresh_os tt) =
    (Ok false, None) /\
  run keyword_rejecting (fresh_legacy tt) = (Ok false, None) /\
  run (answering {| status := 200; json_body := Ok JNull |}) (fresh_os tt) =
    (Ok true, Some 0) /\
  run (answering {| status := 200; json_body := Ok JNull |}) (fresh_legacy tt) =
    (Ok true, Some 0).
Proof. repeat split. Qed.

(** [test_connection] at work: one client and no access point are
    counted on a controller that lists one record without type; an
    unreachable controller gives the failure dict; the session opened
    is closed in both runs. *)
Example test_connection_examples :
  let up := test_connection
              (answering (one_client "aa:bb:cc:dd:ee:ff" (JInt 54000)))
              (fresh_os tt) in
  let down := test_connection unreachable (fresh_os tt) in
  fst up = Ok (JDict [("connected", JBool true); ("client_count", JInt 1);
                      ("ap_count", JInt 0); ("site", JStr "default")]) /\
  map closed (heap (snd up)) = [true] /\
  fst down = Ok (JDict [("connected", JBool false);
                        ("error", JStr "Failed to connect to UniFi controller")]) /\
  map closed (heap (snd down)) = [true].
Proof. repeat split. Qed.

(** * Further properties of the client *)

(** ** Normalization *)

Lemma lower_length (s : string) : String.length (PyStr.lower s) = String.length s.
Proof. induction s as [|c s IH]; cbn; [reflexivity | now rewrite IH]. Qed.

Lemma replace_length (old new : ascii) (s : string) :
  String.length (PyStr.replace old new s) = String.length s.
Proof. induction s as [|c s IH]; cbn; [reflexivity | now rewrite IH]. Qed.

Lemma lower_ascii_below (c : ascii) :
  (nat_of_ascii c <? 128)%nat = true ->
  (nat_of_ascii (PyStr.lower_ascii c) <? 128)%nat = true.
Proof.
  unfold PyStr.lower_ascii. intros H.
  destruct ((65 <=? nat_of_ascii c)%nat && (nat_of_ascii c <=? 90)%nat) eqn:E;
    [|exact H].
  apply andb_true_iff in E as [_ E]. apply Nat.leb_le in E.
  apply Nat.ltb_lt. rewrite nat_ascii_embedding; lia.
Qed.

Lemma lower_ascii_only (s : string) :
  ascii_only s = true -> ascii_only (PyStr.lower s) = true.
Proof.
  induction s as [|c s IH]; cbn [ascii_only PyStr.lower]; [reflexivity|].
  intros H. apply andb_true_iff in H as [Hc Hs].
  now rewrite (lower_ascii_below c Hc), IH.
Qed.

Lemma replace_ascii_only (old new : ascii) (s : string) :
  (nat_of_ascii new <? 128)%nat = true ->
  ascii_only s = true -> ascii_only (PyStr.replace old new s) = true.
Proof.
  intros Hn. induction s as [|c s IH]; cbn [ascii_only PyStr.replace];
    [reflexivity|].
  intros H. apply andb_true_iff in H as [Hc Hs].
  rewrite (IH Hs), andb_true_r. now destruct (Ascii.eqb c old).
Qed.

(** X1: the normalized form of a MAC is lowercase and holds neither [-]
    nor [.], and the strings normalization leaves unchanged are exactly
    the canonical ones.  On ASCII text, which the spellings of a MAC
    are, normalization keeps the length and gives ASCII text again. *)
Theorem normalize_mac_shape (mac : string) :
  (ascii_only mac = true ->
   String.length (normalize_mac mac) = String.length mac /\
   ascii_only (normalize_mac mac) = true) /\
  canonical_mac (normalize_mac mac) /\
  (normalize_mac mac = mac <-> canonical_mac mac).
Proof.
  split; [|split; [apply normalize_mac_canonical|]].
  - intros Ha. unfold normalize_mac. split.
    + now rewrite !replace_length, lower_length.
    + now apply replace_ascii_only, replace_ascii_only, lower_ascii_only.
  - split; [|apply normalize_mac_fixes_canonical].
    intros E. rewrite <- E. apply normalize_mac_canonical.
Qed.

Lemma normalize_mac_shape_witness :
  String.length (normalize_mac "AA-BB.CC-DD.EE-FF") = 17 /\
  ascii_only (normalize_mac "AA-BB.CC-DD.EE-FF") = true.
Proof.
  exact (proj1 (normalize_mac_shape "AA-BB.CC-DD.EE-FF") eq_refl).
Defined.

(** X2: the MAC that [block_client], [unblock_client] and
    [set_client_name] send is the lowercased argument; it is the
    normalized MAC that the lookups use exactly when the argument holds
    neither [-] nor [.]. *)
Theorem lowercased_mac_is_normalized_iff (mac_address : string) :
  PyStr.lower mac_address = normalize_mac mac_address <->
  PyStr.contains "-" mac_address = false /\
  PyStr.contains "." mac_address = false.
Proof.
  split.
  - intros E.
    destruct (normalize_mac_canonical mac_address) as (_ & Hd & Hp).
    rewrite <- E in Hd, Hp.
    rewrite contains_lower in Hd, Hp by (vm_compute; lia). now split.
  - intros [Hd Hp]. unfold normalize_mac.
    rewrite (replace_absent "-" ":").
    + symmetry. apply replace_absent.
      now rewrite contains_lower by (vm_compute; lia).
    + now rewrite contains_lower by (vm_compute; lia).
Qed.

(** ** Disconnecting, and working without a session *)

Lemma closed_session_id (s : ClientSession) :
  closed s = true -> closed_session s = s.
Proof. destruct s as [hd c]. cbn. now intros ->. Qed.

Lemma nth_error_close_at (k sid : nat) (h : list ClientSession) :
  nth_error (close_at k h) sid =
  option_map (fun s => if (k =? sid)%nat then closed_session s else s)
    (nth_error h sid).
Proof.
  revert k sid. induction h as [|x h IH]; intros k sid.
  - destruct k, sid; reflexivity.
  - destruct k as [|k], sid as [|sid]; cbn; try reflexivity.
    + now destruct (nth_error h sid).
    + apply IH.
Qed.

Lemma with_fields_idem (c : UniFiClient) :
  with_fields (with_fields c None None) None None = with_fields c None None.
Proof. reflexivity. Qed.

(** X3: [disconnect] never raises and clears the session and controller
    fields.  It calls [close()] exactly when the instance holds an open
    session, closes that session and no other, and leaves the world
    alone.  A second [disconnect] changes nothing, and on an instance that
    was never connected the first one changes nothing either. *)
Theorem disconnect_closes_once {W} (st : State W) :
  (exists st',
      disconnect st = (Ok tt, st') /\
      self st' = with_fields (self st) None None /\
      world st' = world st /\
      log st' = (log st ++ match held_open st with
                           | Some sid => [(EvSessionClose sid, Returned)]
                           | None => []
                           end)%list /\
      (forall sid,
          nth_error (heap st') sid =
          option_map
            (fun s => match held_open st with
                      | Some k => if (k =? sid)%nat then closed_session s else s
                      | None => s
                      end)
            (nth_error (heap st) sid)) /\
      disconnect st' = (Ok tt, st')) /\
  (forall h u p k s v hp (w : W) lg,
      let fresh := Build_State (__init__ h u p k s v) hp w lg in
      disconnect fresh = (Ok tt, fresh)).
Proof.
  split; [|reflexivity].
  exists (disconnected st). split; [apply disconnect_run|].
  rewrite disconnect_run. unfold disconnected, held_open.
  destruct (_session (self st)) as [k|] eqn:Es; cbn [self heap world log].
  2:{ repeat split; try (now rewrite app_nil_r).
      intros sid. now destruct (nth_error (heap st) sid). }
  destruct (nth_error (heap st) k) as [s|] eqn:En; cbn [self heap world log].
  2:{ repeat split; try (now rewrite app_nil_r).
      intros sid. now destruct (nth_error (heap st) sid). }
  destruct (closed s) eqn:Ec; cbn [self heap world log].
  - repeat split; try (now rewrite app_nil_r).
    intros sid. now destruct (nth_error (heap st) sid).
  - repeat split. intros sid. apply nth_error_close_at.
Qed.

Section NoSession.

Context {W : Type} (env : Env W).
Variable repr : json -> string.

Lemma call_without_session (op : Op) (st : State W) :
  _session (self st) = None -> without_session env repr op st.
Proof.
  intros Hs.
  destruct op; cbn [without_session needs_session]; try exact I;
    unfold call, get_client_by_mac, get_ap_name_by_mac, block_client,
      unblock_client, get_clients, get_access_points, stamgr,
      set_client_name, bind, try_except, get_self, raise, ret;
    now rewrite Hs.
Qed.

End NoSession.

(** X4: on an instance that holds no session, be it fresh from
    [__init__] or just disconnected, [get_clients], [get_client_by_mac],
    [get_access_points], [block_client], [unblock_client] and
    [set_client_name] raise the "Not connected" [RuntimeError] without
    any outside call or change of state, while [get_ap_name_by_mac]
    returns its argument unchanged. *)
Theorem operations_need_a_session {W} (env : Env W) (repr : json -> string)
    (op : Op) :
  (forall h u p k s v hp (w : W) lg,
      without_session env repr op (Build_State (__init__ h u p k s v) hp w lg)) /\
  (forall st : State W,
      without_session env repr op (snd (disconnect st))).
Proof.
  split.
  - intros. now apply call_without_session.
  - intros st. rewrite disconnect_run. apply call_without_session.
    apply disconnected_spec.
Qed.

(** ** What no operation changes *)

Lemma any_mode_config c c' : same_config c c' -> any_mode c -> any_mode c'.
Proof. auto. Qed.

Lemma any_entry_config (c c' : UniFiClient) en :
  same_config c c' -> any_entry c' en -> any_entry c en.
Proof. auto. Qed.

Ltac any_step := keeps_step any_mode_config any_entry_config.

Section AnyMode.

Context {W : Type} (env : Env W).
Variable repr : json -> string.

Local Abbreviation keeps_any := (@keeps W any_mode any_entry _).

Lemma any_disconnect : keeps_any disconnect.
Proof. repeat any_step. intros; exact I. Qed.

Lemma any_connect : keeps_any (connect env).
Proof.
  unfold connect. repeat any_step; try (intros; exact I);
    try apply any_disconnect.
Qed.

Lemma any_get_clients : keeps_any (get_clients env).
Proof.
  unfold get_clients, controller_initialize.
  repeat any_step; try (intros; exact I).
Qed.

Lemma any_get_access_points : keeps_any (get_access_points env).
Proof.
  unfold get_access_points, controller_initialize.
  repeat any_step; try (intros; exact I).
Qed.

Lemma any_call op : keeps_any (call env repr op).
Proof.
  destruct op;
    unfold call, get_client_by_mac, get_ap_name_by_mac, block_client,
      unblock_client, stamgr, set_client_name, test_connection;
    repeat any_step; try (intros; exact I);
    auto using any_connect, any_disconnect, any_get_clients,
      any_get_access_points.
Qed.

End AnyMode.

(** X5: no operation ever assigns [host], [username], [password],
    [api_key], [site], [verify_ssl] or [is_unifi_os]: whatever the
    environment answers, the instance ends with the configuration
    [__init__] gave it, so its protocol mode never changes. *)
Theorem configuration_is_immutable {W} (env : Env W) (repr : json -> string)
    (op : Op) (st : State W) :
  same_config (self st) (self (snd (call env repr op st))).
Proof. exact (proj1 (any_call env repr op st I)). Qed.

(** ** Working through the held session *)

Ltac held_finish :=
  repeat split; auto;
  eexists; (split; [rewrite <- ?app_assoc; try reflexivity;
                    symmetry; apply app_nil_r|]);
  intros ? ? ? ?;
  repeat (apply Forall_cons || apply Forall_nil); try exact I;
  cbn; congruence.

Section Held.

Context {W : Type} (env : Env W).
Variable repr : json -> string.

Lemma held_get_clients : uses_held_session (get_clients env).
Proof.
  intros st. unfold get_clients, controller_initialize.
  wp_steps; held_finish.
Qed.

Lemma held_get_access_points : uses_held_session (get_access_points env).
Proof.
  intros st. unfold get_access_points, controller_initialize.
  wp_steps; held_finish.
Qed.

Lemma held_stamgr cmd mac : uses_held_session (stamgr env cmd mac).
Proof. intros st. unfold stamgr. wp_steps; held_finish. Qed.

Lemma held_set_client_name mac name :
  uses_held_session (set_client_name env repr mac name).
Proof. intros st. unfold set_client_name. wp_steps; held_finish. Qed.

Lemma held_get_client_by_mac mac : uses_held_session (get_client_by_mac env mac).
Proof.
  intros st. unfold get_client_by_mac. apply wp_bind.
  eapply wp_mono; [apply held_get_clients|].
  intros [t|e] st' H; [apply wp_ret|]; exact H.
Qed.

Lemma held_get_ap_name_by_mac mac : uses_held_session (get_ap_name_by_mac env mac).
Proof.
  intros st. unfold get_ap_name_by_mac. apply wp_try_except, wp_bind.
  eapply wp_mono; [apply held_get_access_points|].
  intros [t|e] st' H; [|apply wp_ret; exact H].
  wp_steps; exact H.
Qed.

Lemma held_call op :
  lifecycle op = false -> uses_held_session (call env repr op).
Proof.
  intros Hop st.
  destruct op; try discriminate Hop; unfold call, block_client, unblock_client;
    apply wp_bind;
    (eapply wp_mono;
     [first [ apply held_get_clients | apply held_get_client_by_mac
            | apply held_get_access_points | apply held_get_ap_name_by_mac
            | apply held_stamgr | apply held_set_client_name ]|]);
    intros [x|e] st' H; try apply wp_ret; exact H.
Qed.

End Held.

(** X6: only [connect], [disconnect] and [test_connection] touch the
    session: every other operation, whatever it returns or raises,
    leaves the sessions as they were (none opened, none closed) and the
    session field unchanged. *)
Theorem only_lifecycle_operations_touch_sessions {W} (env : Env W)
    (repr : json -> string) (op : Op) (st : State W) :
  if lifecycle op then True
  else heap (snd (call env repr op st)) = heap st /\
       _session (self (snd (call env repr op st))) = _session (self st).
Proof.
  destruct (lifecycle op) eqn:Hop; [exact I|].
  pose proof (held_call env repr op Hop st) as (Hh & Hs & _).
  now split.
Qed.

(** X7: every request made by an operation other than [connect],
    [disconnect] and [test_connection] carries the default headers of
    the session the instance holds, so that the API key header given to
    the session at [connect] goes out with each of them. *)
Theorem requests_carry_session_headers {W} (env : Env W)
    (repr : json -> string) (op : Op) (st : State W) :
  if lifecycle op then True
  else exists new,
      log (snd (call env repr op st)) = (log st ++ new)%list /\
      match _session (self st) with
      | Some sid =>
          match nth_error (heap st) sid with
          | Some s => Forall (carries (headers s)) new
          | None => True
          end
      | None => True
      end.
Proof.
  destruct (lifecycle op) eqn:Hop; [exact I|].
  pose proof (held_call env repr op Hop st) as (_ & _ & new & Hl & Hc).
  exists new. split; [exact Hl|].
  destruct (_session (self st)) as [sid|]; [|exact I].
  destruct (nth_error (heap st) sid) as [s|] eqn:En; [|exact I].
  now apply (Hc sid s).
Qed.

(** ** What [connect] leaves behind *)

Section ConnectOutcome.

Context {W : Type} (env : Env W).

Lemma connect_success (st : State W) :
  wp (connect env) st (fun r st' =>
    r = Ok true ->
    heap st' = (heap st ++ [{| headers := api_key_headers (self st);
                               closed := false |}])%list /\
    _session (self st') = Some (length (heap st)) /\
    controller (self st') =
      if is_unifi_os (self st) then controller (self st)
      else Some (legacy_controller (self st) (length (heap st)))).
Proof.
  unfold connect, api_key_headers, legacy_controller.
  wp_steps; try wp_disc; wp_steps; intros E; try discriminate E.
  all: repeat split; cbn [negb];
    repeat match goal with
           | |- context [negb (String.eqb ?k "")] =>
               destruct (String.eqb k "")
           | |- context [match api_key ?c with _ => _ end] =>
               destruct (api_key c)
           end; reflexivity.
Qed.

End ConnectOutcome.

(** X8: when [connect] returns [True] it has opened exactly one session,
    which is open and is the one the instance now holds; its default
    headers are the [X-API-KEY] header when the API key is a non-empty
    string and none otherwise.  The sessions that existed before are as
    they were, so a session the instance held before is neither closed
    nor referenced any more.  In UniFi OS mode the controller field is
    untouched. *)
Theorem connect_success_holds_new_session {W} (env : Env W) (st : State W) :
  let st' := snd (connect env st) in
  match fst (connect env st) with
  | Ok true =>
      heap st' = (heap st ++ [{| headers := api_key_headers (self st);
                                 closed := false |}])%list /\
      _session (self st') = Some (length (heap st)) /\
      (is_unifi_os (self st) = true ->
       controller (self st') = controller (self st))
  | _ => True
  end.
Proof.
  pose proof (connect_success env st) as H. unfold wp in H. cbv zeta.
  destruct (connect env st) as [[[|]|e] st']; cbn [fst snd] in *;
    [|exact I | exact I].
  destruct (H eq_refl) as (Hh & Hs & Hc).
  split; [exact Hh|]. split; [exact Hs|].
  intros Hos. now rewrite Hos in Hc.
Qed.

(** ** Connecting in legacy mode *)

Lemma closes_no_login (l : list LogEntry) :
  Forall is_close l -> Forall no_login l.
Proof.
  apply Forall_impl. intros en [sid ->] k. discriminate.
Qed.

Lemma closes_no_controller (l : list LogEntry) (k : Controller) (a : Answer) :
  Forall is_close l -> ~ In (EvController k, a) l.
Proof.
  intros H Hin. rewrite Forall_forall in H.
  destruct (H _ Hin) as [sid E]. discriminate E.
Qed.

Section LegacyConnect.

Context {W : Type} (env : Env W).

Lemma legacy_connect (st : State W) :
  is_unifi_os (self st) = false ->
  wp (connect env) st (fun r st' =>
    exists new,
      log st' = (log st ++ new)%list /\
      (r = Ok true ->
       let k := legacy_controller (self st) (length (heap st)) in
       controller (self st') = Some k /\
       In (EvController k, Returned) new /\ In (EvLogin k, Returned) new) /\
      (forall k e,
          In (EvController k, Raised e) new ->
          r = Ok false /\ Forall no_login new)).
Proof.
  intros Hos. unfold connect, legacy_controller.
  wp_steps; try wp_disc; wp_steps; try congruence.
  all: try use_disconnected.
  all: eexists; (split; [rewrite <- ?app_assoc; reflexivity|]).
  all: cbn [app]; unfold returned; split.
  all: try (intros E;
            first [discriminate E
                  | cbv zeta; split; [reflexivity|]; split; cbn [In]; auto 10]).
  all: intros ? ? Hin; cbn [In] in Hin;
    repeat (destruct Hin as [Hin|Hin]; [try discriminate Hin|]);
    try (exfalso;
         first [exact Hin
               | exact (closes_no_controller _ _ _ ltac:(eassumption) Hin)]).
  all: split; [reflexivity|];
    repeat (apply Forall_cons; [intros ?; discriminate|]);
    first [apply Forall_nil | apply closes_no_login; assumption].
Qed.

End LegacyConnect.

(** X25: in legacy mode [connect] builds the aiounifi controller over
    the host, the new session, the username, the password and the
    site, and then logs in: it returns [True] only when both the
    constructor and the login returned, and the instance then holds
    that controller.  When the constructor raises, as it does when it
    does not take these keyword arguments, [connect] returns [False]
    and no login is attempted. *)
Theorem legacy_connect_needs_the_constructor {W} (env : Env W)
    (st : State W) :
  is_unifi_os (self st) = false ->
  let k := legacy_controller (self st) (length (heap st)) in
  let st' := snd (connect env st) in
  exists new,
    log st' = (log st ++ new)%list /\
    (fst (connect env st) = Ok true ->
     controller (self st') = Some k /\
     In (EvController k, Returned) new /\ In (EvLogin k, Returned) new) /\
    (forall k' e,
        In (EvController k', Raised e) new ->
        fst (connect env st) = Ok false /\ Forall no_login new).
Proof.
  intros Hos. exact (legacy_connect env st Hos).
Qed.

Lemma legacy_connect_needs_the_constructor_witness :
  fst (connect keyword_rejecting (fresh_legacy tt)) = Ok false /\
  Forall no_login (log (snd (connect keyword_rejecting (fresh_legacy tt)))).
Proof.
  destruct (legacy_connect_needs_the_constructor keyword_rejecting
              (fresh_legacy tt) eq_refl) as (new & Hlog & _ & Hraise).
  cbn [app fresh_legacy log] in Hlog. rewrite Hlog.
  apply (Hraise (legacy_controller (self (fresh_legacy tt)) 0)
           (TypeError "__init__() got an unexpected keyword argument")).
  rewrite <- Hlog. vm_compute. tauto.
Defined.

(** X9: when [connect] returns [False], every session opened during the
    call has been closed: a failed connection leaves no open session
    behind. *)
Theorem failed_connect_closes_its_session {W} (env : Env W) (st : State W) :
  match fst (connect env st) with
  | Ok false =>
      Forall (fun s => closed s = true)
        (skipn (length (heap st)) (heap (snd (connect env st))))
  | _ => True
  end.
Proof.
  pose proof (connect_wp env st) as H1. pose proof (connect_owned env st) as H2.
  unfold wp in H1, H2.
  destruct (connect env st) as [[[|]|e] st']; cbn [fst snd] in *;
    try exact I.
  destruct H1 as (b & new & [= <-] & _ & Hf & _).
  destruct (Hf eq_refl) as [Hs _]. destruct H2 as (_ & Hown & _).
  apply Forall_forall. intros s Hin.
  destruct (In_skipn_nth _ _ _ Hin) as (sid & Hle & Hn).
  destruct (closed s) eqn:Hc; [reflexivity|].
  rewrite (Hown sid s Hle Hn Hc) in Hs. discriminate Hs.
Qed.

(** ** Listings in UniFi OS mode *)

Section Listings.

Context {W : Type} (env : Env W).

Lemma get_clients_run (st : State W) sid s :
  is_unifi_os (self st) = true ->
  _session (self st) = Some sid ->
  nth_error (heap st) sid = Some s -> closed s = false ->
  let req := listing_request (self st) s "/stat/sta" in
  let answer := send env req (world st) in
  get_clients env st =
  (listing_result clients_loop (fst answer),
   Build_State (self st) (heap st) (snd answer)
     (log st ++ [(EvHttp req, answer_of responded (fst answer))])).
Proof.
  intros Hos Hs Hn Hc req answer.
  unfold get_clients, session_request, bind, get_self, try_except, outside,
    lift, ret, raise.
  rewrite Hs, Hos, Hn, Hc. subst answer req. unfold listing_request.
  destruct (send env _ (world st)) as [[resp|e] w]; cbn; [|reflexivity].
  destruct (status resp =? 200)%Z; cbn; [|reflexivity].
  destruct (json_body resp) as [data|e]; cbn; [|reflexivity].
  destruct (Py.get data "data" (JList [])) as [field|e]; cbn; [|reflexivity].
  destruct (Py.iter field) as [raw|e]; cbn; [|reflexivity].
  destruct (clients_loop raw []); reflexivity.
Qed.

Lemma get_access_points_run (st : State W) sid s :
  is_unifi_os (self st) = true ->
  _session (self st) = Some sid ->
  nth_error (heap st) sid = Some s -> closed s = false ->
  let req := listing_request (self st) s "/stat/device" in
  let answer := send env req (world st) in
  get_access_points env st =
  (listing_result aps_loop (fst answer),
   Build_State (self st) (heap st) (snd answer)
     (log st ++ [(EvHttp req, answer_of responded (fst answer))])).
Proof.
  intros Hos Hs Hn Hc req answer.
  unfold get_access_points, session_request, bind, get_self, try_except,
    outside, lift, ret, raise.
  rewrite Hs, Hos, Hn, Hc. subst answer req. unfold listing_request.
  destruct (send env _ (world st)) as [[resp|e] w]; cbn; [|reflexivity].
  destruct (status resp =? 200)%Z; cbn; [|reflexivity].
  destruct (json_body resp) as [data|e]; cbn; [|reflexivity].
  destruct (Py.get data "data" (JList [])) as [field|e]; cbn; [|reflexivity].
  destruct (Py.iter field) as [raw|e]; cbn; [|reflexivity].
  destruct (aps_loop raw []); reflexivity.
Qed.

Lemma listing_result_failures (m : M W Table) (st : State W) loop answer :
  loop [] [] = Ok [] ->
  fst (m st) = listing_result loop answer ->
  listing_failures m st answer.
Proof.
  intros Hloop E. unfold listing_failures. rewrite E. repeat split.
  - now intros e ->.
  - intros resp -> Hst. cbn. now rewrite Hst.
  - intros resp e -> Hst Hb. cbn. now rewrite Hst, Hb.
  - intros resp fields -> Hst Hb Hl. cbn. rewrite Hst, Hb. cbn.
    rewrite Hl. cbn. now rewrite Hloop.
Qed.

End Listings.

(** X10: in UniFi OS mode, on an instance that holds an open session,
    [get_clients] and [get_access_points] make exactly one request, a
    [GET] of [stat/sta] resp. [stat/device] under the UniFi OS prefix,
    and change nothing else.  A network error and a body that is no
    JSON are raised as they are; a status other than 200 raises the
    [RuntimeError] "API request failed: " followed by the status; a
    body without [data] gives the empty dict. *)
Theorem listings_fail_loudly {W} (env : Env W) (st : State W) sid s :
  is_unifi_os (self st) = true ->
  _session (self st) = Some sid ->
  nth_error (heap st) sid = Some s -> closed s = false ->
  let sta := listing_request (self st) s "/stat/sta" in
  let device := listing_request (self st) s "/stat/device" in
  snd (get_clients env st) =
    Build_State (self st) (heap st) (snd (send env sta (world st)))
      (log st ++ [(EvHttp sta,
                   answer_of responded (fst (send env sta (world st))))]) /\
  listing_failures (get_clients env) st (fst (send env sta (world st))) /\
  snd (get_access_points env st) =
    Build_State (self st) (heap st) (snd (send env device (world st)))
      (log st ++ [(EvHttp device,
                   answer_of responded (fst (send env device (world st))))]) /\
  listing_failures (get_access_points env) st
    (fst (send env device (world st))).
Proof.
  intros Hos Hs Hn Hc sta device.
  pose proof (get_clients_run env st sid s Hos Hs Hn Hc) as E1.
  pose proof (get_access_points_run env st sid s Hos Hs Hn Hc) as E2.
  cbv zeta in E1, E2. fold sta in E1. fold device in E2.
  split; [now rewrite E1|]. split.
  - apply (listing_result_failures _ _ clients_loop); [reflexivity|].
    now rewrite E1.
  - split; [now rewrite E2|].
    apply (listing_result_failures _ _ aps_loop); [reflexivity|].
    now rewrite E2.
Qed.

Lemma listings_fail_loudly_witness :
  let env := answering {| status := 503; json_body := Ok JNull |} in
  fst (get_clients env (connected_os tt)) =
    Raise (RuntimeError "API request failed: 503") /\
  fst (get_access_points env (connected_os tt)) =
    Raise (RuntimeError "API request failed: 503").
Proof.
  intros env.
  destruct (listings_fail_loudly env (connected_os tt) 0
              {| headers := [("X-API-KEY", JStr "key")]; closed := false |}
              eq_refl eq_refl eq_refl eq_refl)
    as (_ & (_ & H1 & _) & _ & (_ & H2 & _)).
  split; [exact (H1 _ eq_refl eq_refl) | exact (H2 _ eq_refl eq_refl)].
Defined.

(** ** Which records an enumeration accepts *)

Lemma rate_mbps_ok (rate : json) :
  (exists r, rate_mbps rate = Ok r) <-> rate_convertible rate = true.
Proof.
  unfold rate_mbps, rate_convertible.
  destruct (Py.truthy rate) eqn:Et; cbn [negb orb].
  2:{ split; [reflexivity | intros _; now eexists]. }
  destruct rate; cbn [Py.truediv rbind];
    try (split; [intros [r [=]] | discriminate]);
    try (split; [reflexivity | intros _; now eexists]).
  destruct (Py.is_infinite _); cbn;
    (split; [intros [r E]; (discriminate E || reflexivity)
            | intros E; (discriminate E || now eexists)]).
Qed.

Lemma client_entry_ok (d : pydict) (k : string) :
  (exists v, client_entry (JDict d) k = Ok v) <->
  rate_convertible (field "tx_rate" d) && rate_convertible (field "rx_rate" d)
  = true.
Proof.
  unfold client_entry. cbn [Py.get rbind]. fold (field "tx_rate" d).
  fold (field "rx_rate" d). rewrite andb_true_iff, <- !rate_mbps_ok.
  destruct (rate_mbps (field "tx_rate" d)) as [tx|e]; cbn [rbind].
  2:{ split; [intros [v [=]] | intros [[r [=]] _]]. }
  destruct (rate_mbps (field "rx_rate" d)) as [rx|e]; cbn [rbind].
  2:{ split; [intros [v [=]] | intros [_ [r [=]]]]. }
  split; [intros _; split; now eexists | intros _; now eexists].
Qed.

Lemma clients_loop_ok (raw : list json) :
  forall d0, (exists d, clients_loop raw d0 = Ok d) <->
             forallb client_well_formed raw = true.
Proof.
  induction raw as [|c raw IH]; intros d0; cbn [clients_loop forallb].
  - split; [reflexivity | intros _; now eexists].
  - rewrite andb_true_iff.
    destruct c as [| | | | | |d]; cbn [Py.get rbind client_well_formed];
      try solve [split; [intros [x [=]] | intros [[=] _]]].
    destruct (Py.lookup "mac" d) as [m|] eqn:El.
    2:{ cbn. rewrite (IH d0). tauto. }
    destruct m as [| | | |m| |]; cbn [Py.lower rbind];
      try solve [split; [intros [x [=]] | intros [[=] _]]].
    destruct (String.eqb (PyStr.lower m) "") eqn:Ee; cbn [negb orb].
    { rewrite (IH d0). tauto. }
    rewrite <- (client_entry_ok d (PyStr.lower m)).
    destruct (client_entry (JDict d) (PyStr.lower m)) as [v|e]; cbn [rbind].
    + rewrite IH.
      split; [intros H; split; [eexists; reflexivity | exact H] | tauto].
    + split; [intros [x [=]] | intros [[x [=]] _]].
Qed.

Lemma aps_loop_ok (raw : list json) :
  forall d0, (exists d, aps_loop raw d0 = Ok d) <->
             forallb device_well_formed raw = true.
Proof.
  induction raw as [|c raw IH]; intros d0; cbn [aps_loop forallb].
  - split; [reflexivity | intros _; now eexists].
  - rewrite andb_true_iff.
    destruct c as [| | | | | |d]; cbn [Py.get rbind device_well_formed];
      try solve [split; [intros [x [=]] | intros [[=] _]]].
    fold (field "type" d).
    destruct (Py.eq_str (field "type" d) "uap").
    2:{ rewrite (IH d0). tauto. }
    destruct (Py.lookup "mac" d) as [m|] eqn:El.
    2:{ cbn. rewrite (IH d0). tauto. }
    destruct m as [| | | |m| |]; cbn [Py.lower rbind];
      try solve [split; [intros [x [=]] | intros [[=] _]]].
    destruct (String.eqb (PyStr.lower m) ""); cbn [negb].
    { rewrite (IH d0). tauto. }
    cbn. fold (field "type" d). rewrite (IH _). tauto.
Qed.

(** X11: an enumeration is all or nothing.  In UniFi OS mode, when the
    controller answers with the raw records [raw], [get_clients]
    returns a dict exactly when every record is a dict whose [mac] is
    absent or a string and whose rates, if the MAC is not empty, are
    numbers in range or falsy; otherwise it raises and returns no
    partial dict.  [get_access_points] returns a dict exactly when every
    record is a dict and every record of type [uap] has a [mac] that is
    absent or a string. *)
Theorem enumeration_is_all_or_nothing {W} (env : Env W) (st : State W)
    (raw : list json) :
  is_unifi_os (self st) = true ->
  (answers env st "/stat/sta" raw ->
   if forallb client_well_formed raw
   then exists d, fst (get_clients env st) = Ok (Dict d)
   else exists e, fst (get_clients env st) = Raise e) /\
  (answers env st "/stat/device" raw ->
   if forallb device_well_formed raw
   then exists d, fst (get_access_points env st) = Ok (Dict d)
   else exists e, fst (get_access_points env st) = Raise e).
Proof.
  intros Hos. split; intros Hans.
  - rewrite (get_clients_answered env st raw Hos Hans).
    pose proof (clients_loop_ok raw []) as H.
    destruct (forallb client_well_formed raw).
    + destruct (proj2 H eq_refl) as [d ->]. now exists d.
    + destruct (clients_loop raw []) as [d|e]; [|now exists e].
      assert (false = true) by (apply H; now exists d). discriminate.
  - rewrite (get_access_points_answered env st raw Hos Hans).
    pose proof (aps_loop_ok raw []) as H.
    destruct (forallb device_well_formed raw).
    + destruct (proj2 H eq_refl) as [d ->]. now exists d.
    + destruct (aps_loop raw []) as [d|e]; [|now exists e].
      assert (false = true) by (apply H; now exists d). discriminate.
Qed.

Lemma enumeration_is_all_or_nothing_witness :
  let bad := answering (one_client "aa:bb:cc:dd:ee:ff" (JStr "54000")) in
  let good := answering (one_client "aa:bb:cc:dd:ee:ff" (JInt 54000)) in
  (exists e, fst (get_clients bad (connected_os tt)) = Raise e) /\
  (exists d, fst (get_clients good (connected_os tt)) = Ok (Dict d)) /\
  (exists d, fst (get_access_points bad (connected_os tt)) = Ok (Dict d)).
Proof.
  intros bad good. split; [|split].
  - exact (proj1 (enumeration_is_all_or_nothing bad (connected_os tt) _ eq_refl)
             (one_client_answers _ _ "/stat/sta")).
  - exact (proj1 (enumeration_is_all_or_nothing good (connected_os tt) _ eq_refl)
             (one_client_answers _ _ "/stat/sta")).
  - exact (proj2 (enumeration_is_all_or_nothing bad (connected_os tt) _ eq_refl)
             (one_client_answers _ _ "/stat/device")).
Defined.

(** ** Looking a client up *)

Lemma lookup_setitem_eq (k : string) (v : json) (d : pydict) :
  Py.lookup k (Py.setitem k v d) = Some v.
Proof.
  induction d as [|[k0 v0] d IH]; cbn.
  - now rewrite String.eqb_refl.
  - destruct (String.eqb k0 k) eqn:E; cbn; rewrite E; [reflexivity | exact IH].
Qed.

Lemma lookup_setitem_ne (k k' : string) (v : json) (d : pydict) :
  String.eqb k k' = false ->
  Py.lookup k' (Py.setitem k v d) = Py.lookup k' d.
Proof.
  intros Hne. induction d as [|[k0 v0] d IH]; cbn.
  - now rewrite Hne.
  - destruct (String.eqb k0 k) eqn:E; cbn.
    + apply String.eqb_eq in E. subst k0. now rewrite Hne.
    + now rewrite IH.
Qed.

(** The dict the loop of [get_clients] builds maps a key to the entry of
    the last raw record stored under it. *)
Lemma clients_loop_lookup (raw : list json) :
  forall d0 d,
    clients_loop raw d0 = Ok d ->
    forall k,
      Py.lookup k d =
      match last_with_key k raw with
      | Some c => stored (client_entry c k)
      | None => Py.lookup k d0
      end.
Proof.
  induction raw as [|c raw IH]; intros d0 d H k; cbn in H.
  - now injection H as <-.
  - cbn [last_with_key]. unfold record_key.
    destruct (Py.get c "mac" (JStr "")) as [m|e] eqn:Eg; cbn in H; [|discriminate].
    destruct m as [| | | |x| |]; cbn in H; try discriminate.
    destruct (String.eqb (PyStr.lower x) "") eqn:Ee; cbn [negb] in H.
    + rewrite (IH _ _ H k). now destruct (last_with_key k raw).
    + destruct (client_entry c (PyStr.lower x)) as [entry|e] eqn:Een;
        cbn in H; [|discriminate].
      rewrite (IH _ _ H k). destruct (last_with_key k raw); [reflexivity|].
      destruct (String.eqb (PyStr.lower x) k) eqn:Ek.
      * apply String.eqb_eq in Ek. subst k. rewrite Een. cbn.
        apply lookup_setitem_eq.
      * now apply lookup_setitem_ne.
Qed.

Lemma client_entry_mac (c : json) (k : string) (v : json) :
  client_entry c k = Ok v -> Py.get v "mac" JNull = Ok (JStr k).
Proof.
  unfold client_entry. intros H.
  repeat match type of H with
         | rbind ?g _ = _ => destruct g; cbn in H; [|discriminate]
         end.
  now injection H as <-.
Qed.

Lemma get_client_by_mac_run {W} (env : Env W) (mac : string) (st : State W) :
  fst (get_client_by_mac env mac st) =
  match fst (get_clients env st) with
  | Ok clients => Ok (table_get clients (normalize_mac mac))
  | Raise e => Raise e
  end.
Proof.
  unfold get_client_by_mac, bind, ret.
  now destruct (get_clients env st) as [[t|e] st'].
Qed.

(** X12: in UniFi OS mode, when the controller answers with the raw
    records [raw], [get_client_by_mac] raises whenever the enumeration
    does and otherwise looks the normalized MAC up: it returns [None]
    when no raw record is stored under that key, and else the entry of
    the last such record (a later record of a MAC replaces an earlier
    one), whose [mac] field is the normalized MAC. *)
Theorem get_client_by_mac_returns_last_record {W} (env : Env W)
    (st : State W) (raw : list json) (mac_address : string) :
  is_unifi_os (self st) = true ->
  answers env st "/stat/sta" raw ->
  let normalized_mac := normalize_mac mac_address in
  fst (get_client_by_mac env mac_address st) =
    match clients_loop raw [] with
    | Raise e => Raise e
    | Ok _ =>
        Ok match last_with_key normalized_mac raw with
           | Some client =>
               option_map DictEntry (stored (client_entry client normalized_mac))
           | None => None
           end
    end /\
  forall record,
    fst (get_client_by_mac env mac_address st) = Ok (Some (DictEntry record)) ->
    Py.get record "mac" JNull = Ok (JStr normalized_mac).
Proof.
  intros Hos Hans nm.
  assert (E : fst (get_client_by_mac env mac_address st) =
              match clients_loop raw [] with
              | Raise e => Raise e
              | Ok _ =>
                  Ok match last_with_key nm raw with
                     | Some client =>
                         option_map DictEntry (stored (client_entry client nm))
                     | None => None
                     end
              end).
  { rewrite get_client_by_mac_run, (get_clients_answered env st raw Hos Hans).
    destruct (clients_loop raw []) as [d|e] eqn:El; [|reflexivity].
    cbn [table_get]. fold nm. rewrite (clients_loop_lookup raw [] d El nm).
    now destruct (last_with_key nm raw). }
  split; [exact E|].
  intros record Hr. rewrite E in Hr.
  destruct (clients_loop raw []); [|discriminate].
  destruct (last_with_key nm raw) as [c|]; [|discriminate].
  destruct (client_entry c nm) as [v|] eqn:Ev; [|discriminate].
  cbn in Hr. injection Hr as <-. now apply (client_entry_mac c).
Qed.

Lemma seen_twice_answers (path : string) :
  answers (answering seen_twice) (connected_os tt) path
    [JDict [("mac", JStr "AA:BB:CC:DD:EE:FF"); ("ip", JStr "10.0.0.1")];
     JDict [("mac", JStr "aa:bb:cc:dd:ee:ff"); ("ip", JStr "10.0.0.2")]].
Proof. unfold answers. do 6 eexists. repeat split. Defined.

Lemma get_client_by_mac_witness :
  let found := fst (get_client_by_mac (answering seen_twice)
                      "AA-BB-CC-DD-EE-FF" (connected_os tt)) in
  let absent := fst (get_client_by_mac (answering seen_twice)
                       "11:22:33:44:55:66" (connected_os tt)) in
  (exists record,
      found = Ok (Some (DictEntry record)) /\
      Py.get record "ip" JNull = Ok (JStr "10.0.0.2") /\
      Py.get record "mac" JNull = Ok (JStr "aa:bb:cc:dd:ee:ff")) /\
  absent = Ok None.
Proof.
  intros found absent. split.
  - eexists. split; [reflexivity|]. split; [reflexivity|].
    exact (proj2 (get_client_by_mac_returns_last_record (answering seen_twice)
                    (connected_os tt) _ "AA-BB-CC-DD-EE-FF" eq_refl
                    (seen_twice_answers "/stat/sta")) _ eq_refl).
  - exact (proj1 (get_client_by_mac_returns_last_record (answering seen_twice)
                    (connected_os tt) _ "11:22:33:44:55:66" eq_refl
                    (seen_twice_answers "/stat/sta"))).
Defined.

(** ** What the control actions report *)

Section Reports.

Context {W : Type} (env : Env W) (repr : json -> string).

Ltac reports_finish :=
  lazymatch goal with
  | |- reports _ (Ok false) _ => exists false; split; [reflexivity | discriminate]
  | |- reports _ (Ok true) _ =>
      exists true; split; [reflexivity|]; intros _;
      repeat match goal with
             | H : (status _ =? 200)%Z = true |- _ =>
                 apply Z.eqb_eq in H
             end;
      unfold accepted_write, responded; cbn [log];
      rewrite <- ?app_assoc;
      first [ exists []; eexists; split;
              [cbn [app]; repeat f_equal; eassumption | cbn; tauto]
            | eexists [_]; eexists; split;
              [cbn [app]; repeat f_equal; eassumption | cbn; tauto] ]
  end.

Lemma stamgr_reports (cmd mac_address : string) (st : State W) sid :
  _session (self st) = Some sid ->
  wp (stamgr env cmd mac_address) st (reports st).
Proof.
  intros Hs. unfold stamgr. wp_steps; try congruence; reports_finish.
Qed.

Lemma set_client_name_reports (mac_address name : string) (st : State W) sid :
  _session (self st) = Some sid ->
  wp (set_client_name env repr mac_address name) st (reports st).
Proof.
  intros Hs. unfold set_client_name. wp_steps; try congruence; reports_finish.
Qed.

End Reports.

(** X13: on an instance whose session field is set, [block_client],
    [unblock_client] and [set_client_name] never raise, whatever the
    controller and the network do: each ends with a bool, and with
    [True] only when the last request it made was a [POST] or a [PUT]
    that was answered with status 200. *)
Theorem control_actions_report_a_bool {W} (env : Env W) (repr : json -> string)
    (st : State W) (sid : nat) (mac_address name : string) :
  _session (self st) = Some sid ->
  let blocked := block_client env mac_address st in
  let unblocked := unblock_client env mac_address st in
  let named := set_client_name env repr mac_address name st in
  reports st (fst blocked) (snd blocked) /\
  reports st (fst unblocked) (snd unblocked) /\
  reports st (fst named) (snd named).
Proof.
  intros Hs. cbv zeta. repeat split.
  - exact (stamgr_reports env "block-sta" mac_address st sid Hs).
  - exact (stamgr_reports env "unblock-sta" mac_address st sid Hs).
  - exact (set_client_name_reports env repr mac_address name st sid Hs).
Qed.

Lemma control_actions_report_a_bool_witness :
  let st := connected_os tt in
  let blocked := block_client unreachable "AA:BB:CC:DD:EE:FF" st in
  let unblocked := unblock_client refusing "AA:BB:CC:DD:EE:FF" st in
  let named := set_client_name registry no_repr "AA:BB:CC:DD:EE:FF" "Laptop"
                 (connected_os one_user) in
  fst blocked = Ok false /\ fst unblocked = Ok false /\
  fst named = Ok true /\
  reports st (fst blocked) (snd blocked) /\
  reports (connected_os one_user) (fst named) (snd named).
Proof.
  cbv zeta. repeat (split; [reflexivity|]). split.
  - exact (proj1 (control_actions_report_a_bool unreachable no_repr
                    (connected_os tt) 0 "AA:BB:CC:DD:EE:FF" "" eq_refl)).
  - exact (proj2 (proj2 (control_actions_report_a_bool registry no_repr
                    (connected_os one_user) 0 "AA:BB:CC:DD:EE:FF" "Laptop"
                    eq_refl))).
Defined.

(** X14: on an instance that holds an open session [s],
    [block_client] and [unblock_client] send exactly one request, a
    [POST] to [cmd/stamgr] of the site (behind [/proxy/network] in
    UniFi OS mode) with the headers of [s] and the commands [block-sta]
    and [unblock-sta]; the result is [True] exactly when the answer has
    status 200, and [False] when the request raises.  The instance and
    its sessions are left as they were.  On a session that was closed
    they return [False] and send nothing. *)
Theorem block_and_unblock_send_one_command {W} (env : Env W) (st : State W)
    (sid : nat) (s : ClientSession) (mac_address : string) :
  _session (self st) = Some sid ->
  nth_error (heap st) sid = Some s ->
  if closed s then
    block_client env mac_address st = (Ok false, st) /\
    unblock_client env mac_address st = (Ok false, st)
  else
    block_client env mac_address st =
      one_request_run env
        (stamgr_request (self st) s "block-sta" mac_address) st /\
    unblock_client env mac_address st =
      one_request_run env
        (stamgr_request (self st) s "unblock-sta" mac_address) st.
Proof.
  intros Hs Hn. destruct (closed s) eqn:Hc.
  - unfold block_client, unblock_client, stamgr, session_request, bind,
      get_self, try_except, raise, ret.
    rewrite Hs. cbv zeta. rewrite Hn, Hc. destruct st. split; reflexivity.
  - split; apply (stamgr_run env _ mac_address st sid s Hs Hn Hc).
Qed.

Lemma block_and_unblock_send_one_command_witness :
  fst (block_client refusing "AA-BB" (connected_os tt)) = Ok false /\
  map fst (log (snd (block_client refusing "AA-BB" (connected_os tt)))) =
    [EvHttp {| req_method := POST;
               req_url := "https://unifi/proxy/network/api/s/default/cmd/stamgr";
               req_json := Some (JDict [("cmd", JStr "block-sta");
                                        ("mac", JStr "aa-bb")]);
               req_headers := [("X-API-KEY", JStr "key")] |}].
Proof.
  rewrite (proj1 (block_and_unblock_send_one_command refusing (connected_os tt)
                    0 _ "AA-BB" eq_refl eq_refl)).
  split; reflexivity.
Defined.

(** ** Naming a client *)

Lemma methods_logged_app (l l' : list LogEntry) :
  methods_logged (l ++ l') = (methods_logged l ++ methods_logged l')%list.
Proof. apply flat_map_app. Qed.

(** X15: whatever the instance and the controller, [set_client_name]
    makes no request, or one [GET] of the user list, or that [GET]
    followed by exactly one write, a [PUT] or a [POST]: it never writes
    without having read the list and never writes twice.  It leaves the
    instance and the sessions as they were. *)
Theorem set_client_name_reads_then_writes_once {W} (env : Env W)
    (repr : json -> string) (mac_address name : string) (st : State W) :
  let st' := snd (set_client_name env repr mac_address name st) in
  self st' = self st /\ heap st' = heap st /\
  exists new,
    log st' = (log st ++ new)%list /\ naming_requests (methods_logged new).
Proof.
  cbv zeta.
  change (wp (set_client_name env repr mac_address name) st
            (fun _ st' =>
               self st' = self st /\ heap st' = heap st /\
               exists new,
                 log st' = (log st ++ new)%list /\
                 naming_requests (methods_logged new))).
  unfold set_client_name.
  wp_steps; (split; [reflexivity|]); (split; [reflexivity|]);
    rewrite <- ?app_assoc;
    first [ exists []; split; [symmetry; apply app_nil_r | left; reflexivity]
          | eexists; split; [reflexivity|]; cbn; unfold naming_requests; tauto ].
Qed.

Lemma py_get_truthy_dict (u : json) (key : string) (dflt v : json) :
  Py.get u key dflt = Ok v -> exists d, u = JDict d.
Proof. destruct u; try discriminate. intros _. now eexists. Qed.

(** X16: the lookup of [set_client_name] in the user list is a first
    match on lowercased MACs.  When it gives [None], every entry has a
    string [mac] that differs from the argument; when it gives an
    entry, that entry is in the list, matches, and every entry before
    it differs; and when it raises, the entries before the one that
    cannot be read all differ.  Letter case of the argument does not
    matter. *)
Theorem find_user_first_match (users : list json) (mac_address : string) :
  find_user users (PyStr.lower mac_address) = find_user users mac_address /\
  match find_user users mac_address with
  | Ok user =>
      (user = JNull /\ Forall (other_user mac_address) users) \/
      (exists before after,
          users = (before ++ user :: after)%list /\
          Forall (other_user mac_address) before /\
          same_user mac_address user)
  | Raise e =>
      exists before u after,
        users = (before ++ u :: after)%list /\
        Forall (other_user mac_address) before /\ unreadable_user u e
  end.
Proof.
  split.
  - induction users as [|u users IH]; cbn [find_user]; [reflexivity|].
    now rewrite lower_idem, IH.
  - induction users as [|u users IH]; cbn [find_user].
    + left. split; [reflexivity | constructor].
    + destruct (Py.get u "mac" (JStr "")) as [m|e] eqn:Eg; cbn [rbind].
      2:{ exists [], u, users. repeat split; [constructor | now left]. }
      destruct (Py.lower m) as [k|e] eqn:El; cbn [rbind].
      2:{ exists [], u, users. repeat split; [constructor|].
          right. now exists m. }
      destruct m; try discriminate. injection El as <-.
      destruct (String.eqb (PyStr.lower s) (PyStr.lower mac_address)) eqn:Ek.
      * apply String.eqb_eq in Ek. right. exists [], users.
        repeat split; [constructor|]. now exists s.
      * apply String.eqb_neq in Ek.
        assert (Hu : other_user mac_address u) by now exists s.
        destruct (find_user users mac_address) as [user|e].
        -- destruct IH as [[-> Hall]|(before & after & -> & Hb & Hsame)].
           ++ left. split; [reflexivity | now constructor].
           ++ right. exists (u :: before), after.
              repeat split; [now constructor | exact Hsame].
        -- destruct IH as (before & x & after & -> & Hb & Hx).
           exists (u :: before), x, after.
           repeat split; [now constructor | exact Hx].
Qed.

Lemma find_user_dict (users : list json) (mac_address : string) (user : json) :
  find_user users mac_address = Ok user ->
  user = JNull \/ exists d, user = JDict d.
Proof.
  induction users as [|u users IH]; cbn [find_user].
  - intros [= <-]. now left.
  - destruct (Py.get u "mac" (JStr "")) as [m|e] eqn:Eg; cbn [rbind]; [|discriminate].
    destruct (Py.lower m) as [k|e]; cbn [rbind]; [|discriminate].
    destruct (String.eqb k (PyStr.lower mac_address)); [|exact IH].
    intros [= <-]. right. exact (py_get_truthy_dict _ _ _ _ Eg).
Qed.

(** X17: when the instance holds an open session and the controller
    lists the users, [set_client_name] makes exactly one write after the
    [GET]: a [PUT] of the name to the URL of the entry its lookup
    found, named by the [_id] of that entry, or, when the lookup found
    none, a [POST] of the lowercased MAC and the name to the list.  It
    returns [True] exactly when that write is answered with status 200,
    [False] also when the write raises, and leaves the instance and its
    sessions as they were. *)
Theorem set_client_name_updates_or_creates {W} (env : Env W)
    (repr : json -> string) (st : State W) (s : ClientSession)
    (mac_address name : string) (users : list json) (user : json) (w : W) :
  lists_users env st s users w ->
  find_user users mac_address = Ok user ->
  let write := naming_write repr (self st) s mac_address name user in
  let answer := send env write w in
  set_client_name env repr mac_address name st =
  (Ok (accepted (fst answer)),
   Build_State (self st) (heap st) (snd answer)
     (log st ++ [(EvHttp (user_list_request (self st) s), Responded 200);
                 (EvHttp write, answer_of responded (fst answer))])).
Proof.
  intros (sid & resp & data & fld & Hs & Hn & Hc & Hsend & H200 & Hbody & Hget & Hiter)
    Hfind write answer.
  subst answer write.
  unfold set_client_name, session_request, bind, get_self, try_except,
    outside, lift, ret.
  rewrite Hs. cbv zeta. rewrite Hn, Hc.
  unfold user_list_request, rest_user_url in Hsend.
  cbn [self heap world log fst snd].
  rewrite Hsend. cbn [fst snd answer_of responded].
  unfold responded. rewrite H200. cbn [Z.eqb Pos.eqb].
  rewrite Hbody, Hget, Hiter, Hfind.
  unfold naming_write, rest_user_url.
  destruct (find_user_dict users mac_address user Hfind) as [->|[d ->]];
    [|cbn [Py.get]; destruct (Py.truthy (JDict d))];
    cbn [Py.truthy]; cbn beta iota; cbn [self heap world log fst snd];
    rewrite Hn, Hc;
    (destruct (send env _ w) as [[r|e] w'] eqn:E;
     cbn [fst snd answer_of accepted]; rewrite <- app_assoc; cbn [app];
     [|reflexivity]; destruct (status r =? 200)%Z; reflexivity).
Qed.

Lemma registry_lists_users :
  lists_users registry (connected_os one_user)
    {| headers := [("X-API-KEY", JStr "key")]; closed := false |}
    (Registry.users one_user) one_user.
Proof. unfold lists_users. do 4 eexists. repeat split. Defined.

Lemma set_client_name_updates_or_creates_witness :
  let known :=
    set_client_name registry no_repr "AA:BB:CC:DD:EE:FF" "Laptop"
      (connected_os one_user) in
  let unknown :=
    set_client_name registry no_repr "11:22:33:44:55:66" "Printer"
      (connected_os one_user) in
  (fst known = Ok true /\
   map fst (skipn 1 (log (snd known))) =
     [EvHttp {| req_method := PUT;
                req_url := (registry_url ++ "/u1")%string;
                req_json := Some (JDict [("name", JStr "Laptop")]);
                req_headers := [("X-API-KEY", JStr "key")] |}]) /\
  (fst unknown = Ok true /\
   map fst (skipn 1 (log (snd unknown))) =
     [EvHttp {| req_method := POST;
                req_url := registry_url;
                req_json := Some (JDict [("mac", JStr "11:22:33:44:55:66");
                                         ("name", JStr "Printer")]);
                req_headers := [("X-API-KEY", JStr "key")] |}]).
Proof.
  cbv zeta. split.
  - rewrite (set_client_name_updates_or_creates registry no_repr
               (connected_os one_user) _ "AA:BB:CC:DD:EE:FF" "Laptop" _ _ _
               registry_lists_users eq_refl).
    split; reflexivity.
  - rewrite (set_client_name_updates_or_creates registry no_repr
               (connected_os one_user) _ "11:22:33:44:55:66" "Printer" _ _ _
               registry_lists_users eq_refl).
    split; reflexivity.
Defined.

(** ** Listings in legacy mode *)

(** X18: in legacy mode [get_clients] and [get_access_points] send no
    request of their own, from whatever state they are called.
    Without a session both raise the "Not connected" [RuntimeError];
    with a session and without a controller object both raise
    [RuntimeError("Controller not initialized")]; in both cases nothing
    else happens.  With a session and a controller object, each
    refreshes the object once, raises what the refresh raises, and
    otherwise stores the refreshed object and returns its [clients]
    and its [devices] table as they are, the devices not being
    filtered by type. *)
Theorem legacy_listings_refresh_the_controller {W} (env : Env W)
    (st : State W) :
  if is_unifi_os (self st) then True
  else
    match _session (self st), controller (self st) with
    | None, _ =>
        get_clients env st = (Raise not_connected, st) /\
        get_access_points env st = (Raise not_connected, st)
    | Some _, None =>
        get_clients env st =
          (Raise (RuntimeError "Controller not initialized"), st) /\
        get_access_points env st =
          (Raise (RuntimeError "Controller not initialized"), st)
    | Some _, Some k =>
        get_clients env st = legacy_listing_run env clients k st /\
        get_access_points env st = legacy_listing_run env devices k st
    end.
Proof.
  destruct (is_unifi_os (self st)) eqn:Hos; [exact I|].
  unfold get_clients, get_access_points, controller_initialize,
    legacy_listing_run, bind, get_self, try_except, outside, set_controller,
    raise, ret.
  rewrite Hos. destruct (_session (self st)) as [sid|] eqn:Hs.
  - destruct (controller (self st)) as [k|].
    + cbv zeta.
      destruct (initialize env k (world st)) as [[t|e] w];
        cbn [self heap world log fst snd]; rewrite ?Hs; split; reflexivity.
    + destruct st; split; reflexivity.
  - split; reflexivity.
Qed.

(** ** Which operations write *)

Lemma reading_entry_config (c c' : UniFiClient) en :
  same_config c c' -> reading_entry c' en -> reading_entry c en.
Proof. auto. Qed.

Ltac reading_step := keeps_step any_mode_config reading_entry_config.

Ltac reading_side :=
  try (intros; first [exact I | split; reflexivity]).

Section Reading.

Context {W : Type} (env : Env W).
Variable repr : json -> string.

Local Abbreviation keeps_reading := (@keeps W any_mode reading_entry _).

Lemma reading_disconnect : keeps_reading disconnect.
Proof. repeat reading_step. reading_side. Qed.

Lemma reading_connect : keeps_reading (connect env).
Proof.
  unfold connect. repeat reading_step; reading_side;
    try apply reading_disconnect.
Qed.

Lemma reading_get_clients : keeps_reading (get_clients env).
Proof.
  unfold get_clients, controller_initialize.
  repeat reading_step; reading_side.
Qed.

Lemma reading_get_access_points : keeps_reading (get_access_points env).
Proof.
  unfold get_access_points, controller_initialize.
  repeat reading_step; reading_side.
Qed.

Lemma reading_call op : writes op = false -> keeps_reading (call env repr op).
Proof.
  destruct op; try discriminate; intros _;
    unfold call, get_client_by_mac, get_ap_name_by_mac, test_connection;
    repeat reading_step; reading_side;
    auto using reading_connect, reading_disconnect, reading_get_clients,
      reading_get_access_points.
Qed.

End Reading.

(** X19: only [block_client], [unblock_client] and [set_client_name]
    write to the controller.  Every request any other operation makes,
    [connect] and [test_connection] with their probes included, is a
    [GET] without a body, from any state and whatever the controller
    answers. *)
Theorem only_control_actions_write {W} (env : Env W) (repr : json -> string)
    (op : Op) (st : State W) :
  if writes op then True
  else exists new,
      log (snd (call env repr op st)) = (log st ++ new)%list /\
      Forall (reading_entry (self st)) new.
Proof.
  destruct (writes op) eqn:Hop; [exact I|].
  exact (proj2 (reading_call env repr op Hop st I)).
Qed.

(** ** The probe of [connect] *)

Lemma requests_logged_app (l l' : list LogEntry) :
  requests_logged (l ++ l') = (requests_logged l ++ requests_logged l')%list.
Proof. apply flat_map_app. Qed.

Lemma requests_logged_closes (l : list LogEntry) :
  Forall is_close l -> requests_logged l = [].
Proof.
  induction 1 as [|en l [sid ->] _ IH]; [reflexivity | exact IH].
Qed.

Section ConnectProbe.

Context {W : Type} (env : Env W).

Lemma connect_probe (st : State W) :
  wp (connect env) st (fun r st' =>
    exists new,
      log st' = (log st ++ new)%list /\
      (requests_logged new = [] \/
       is_unifi_os (self st) = true /\
       requests_logged new = [probe_request (self st)]) /\
      (r = Ok true -> is_unifi_os (self st) = true ->
       requests_logged new = [probe_request (self st)])).
Proof.
  unfold connect, probe_request, api_key_headers.
  wp_steps; try wp_disc; wp_steps.
  all: try use_disconnected.
  all: eexists; (split; [rewrite <- ?app_assoc; reflexivity|]).
  all: rewrite ?requests_logged_app;
    try rewrite (requests_logged_closes closes) by assumption;
    cbn [requests_logged flat_map fst app negb].
  all: repeat match goal with
              | |- context [negb (String.eqb ?k "")] =>
                  destruct (String.eqb k "")
              | |- context [match api_key ?c with _ => _ end] =>
                  destruct (api_key c)
              end; cbn [negb].
  all: split; [first [left; reflexivity | right; split; reflexivity]
              | intros; first [discriminate | congruence | reflexivity]].
Qed.

End ConnectProbe.

(** X20: [connect] sends at most one request of its own, and only in
    UniFi OS mode: the [GET] of [stat/device] of the site behind
    [/proxy/network], with the [X-API-KEY] header when the API key is
    not empty and with no header otherwise; in legacy mode it sends
    none, the login being left to aiounifi.  A successful [connect] in
    UniFi OS mode has sent that probe.  An instance made with the empty
    string as API key is in UniFi OS mode and probes without the
    header. *)
Theorem connect_sends_one_probe {W} (env : Env W) (st : State W) :
  (exists new,
      log (snd (connect env st)) = (log st ++ new)%list /\
      (requests_logged new = [] \/
       is_unifi_os (self st) = true /\
       requests_logged new = [probe_request (self st)]) /\
      (fst (connect env st) = Ok true -> is_unifi_os (self st) = true ->
       requests_logged new = [probe_request (self st)])) /\
  (forall h u p s v,
      let c := __init__ h u p (Some "") s v in
      is_unifi_os c = true /\ req_headers (probe_request c) = []).
Proof.
  split; [exact (connect_probe env st)|].
  intros h u p s v. split; reflexivity.
Qed.

(** ** The records of a listing *)

Lemma client_entry_projection (c : json) (k : string) (v : json) :
  client_entry c k = Ok v -> client_projection c k v.
Proof.
  unfold client_entry. intros H.
  destruct c as [| | | | | |d]; try discriminate H.
  cbn [Py.get rbind] in H.
  destruct (rate_mbps _) as [tx|]; cbn [rbind] in H; [|discriminate].
  destruct (rate_mbps _) as [rx|]; cbn [rbind] in H; [|discriminate].
  injection H as <-. eexists. split; [reflexivity|].
  split; [reflexivity|]. split; [reflexivity|]. split.
  - repeat constructor.
  - reflexivity.
Qed.

Lemma ap_entry_projection (c : json) (k : string) (v : json) :
  is_uap c -> ap_entry c k = Ok v -> ap_projection c k v.
Proof.
  unfold ap_entry. intros (t & Ht & Hu) H.
  destruct c as [| | | | | |d]; try discriminate H.
  cbn [Py.get rbind] in H, Ht. injection H as <-. injection Ht as Ht.
  destruct t; try discriminate Hu. apply String.eqb_eq in Hu. subst s.
  eexists. split; [reflexivity|]. split; [reflexivity|].
  split; [reflexivity|]. split; [cbn; now rewrite Ht | split; reflexivity].
Qed.

(** X21: in UniFi OS mode, every value of the dict [get_clients] returns
    is built from one raw record whose lowercased MAC is its key: it has
    exactly the fifteen keys of the source, its [mac] is the key, eleven
    fields are copied as they are, [None] standing for a missing one,
    and [blocked] defaults to [False]; any other field of the raw record
    is dropped.  Every value of the dict [get_access_points] returns has
    exactly the keys [mac], [name], [model] and [type], its [mac] is the
    key, its [type] is [uap], and name and model are copied. *)
Theorem listed_records_are_projections {W} (env : Env W) (st : State W)
    (raw : list json) :
  is_unifi_os (self st) = true ->
  (answers env st "/stat/sta" raw ->
   projections client_projection raw (fst (get_clients env st))) /\
  (answers env st "/stat/device" raw ->
   projections ap_projection raw (fst (get_access_points env st))).
Proof.
  intros Hos. split; intros Hans.
  - rewrite (get_clients_answered env st raw Hos Hans).
    destruct (clients_loop raw []) as [d|e] eqn:E; [|exact I].
    destruct (clients_loop_spec raw [] d E) as (_ & _ & Hv).
    apply Forall_forall. intros [k v] Hin.
    destruct (Hv k v Hin) as [[]|(c & Hc & Hu & He)].
    exists c. split; [exact Hc|]. split; [exact Hu|].
    now apply client_entry_projection.
  - rewrite (get_access_points_answered env st raw Hos Hans).
    destruct (aps_loop raw []) as [d|e] eqn:E; [|exact I].
    destruct (aps_loop_spec raw [] d E) as (_ & _ & Hv).
    apply Forall_forall. intros [k v] Hin.
    destruct (Hv k v Hin) as [[]|(c & Hc & Hap & Hu & He)].
    exists c. split; [exact Hc|]. split; [exact Hu|].
    now apply ap_entry_projection.
Qed.

Lemma listed_records_are_projections_witness :
  projections client_projection
    [JDict [("mac", JStr "AA:BB:CC:DD:EE:FF"); ("ip", JStr "10.0.0.1")];
     JDict [("mac", JStr "aa:bb:cc:dd:ee:ff"); ("ip", JStr "10.0.0.2")]]
    (fst (get_clients (answering seen_twice) (connected_os tt))).
Proof.
  exact (proj1 (listed_records_are_projections (answering seen_twice)
                  (connected_os tt) _ eq_refl)
           (seen_twice_answers "/stat/sta")).
Defined.

(** ** Spellings of a MAC *)

Lemma get_ap_name_by_mac_found {W} (env : Env W) (ap_mac : string)
    (st : State W) (aps : Table) :
  fst (get_access_points env st) = Ok aps ->
  get_ap_name_by_mac env ap_mac st =
  (Ok match table_get aps (normalize_mac ap_mac) with
      | Some ap => ap_label ap (normalize_mac ap_mac)
      | None => JStr (normalize_mac ap_mac)
      end,
   snd (get_access_points env st)).
Proof.
  intros Haps.
  pose proof (get_access_points_records env st) as Hrec. unfold wp in Hrec.
  unfold get_ap_name_by_mac, try_except, bind.
  destruct (get_access_points env st) as [r st1]; cbn [fst snd] in *.
  subst r. set (nm := normalize_mac ap_mac).
  destruct aps as [d|hd]; cbn [table_get].
  - destruct (Py.lookup nm d) as [v|] eqn:El; cbn [option_map]; [|reflexivity].
    destruct (Hrec d nm v eq_refl (lookup_In _ _ _ El))
      as (mac & name & model & type & ->).
    cbn. unfold ret. rewrite or_chain. reflexivity.
  - destruct (handler_lookup nm (items hd)) as [o|]; cbn [option_map];
      [|reflexivity].
    unfold ret. rewrite or_chain. reflexivity.
Qed.

(** X22: the two lookups do not depend on how a MAC is spelled: for two
    strings with the same normalized form, [get_client_by_mac] runs
    alike, result and state, and so does [get_ap_name_by_mac] whenever
    the enumeration of the access points succeeds. *)
Theorem lookups_ignore_the_spelling {W} (env : Env W) (st : State W)
    (mac mac' : string) :
  normalize_mac mac = normalize_mac mac' ->
  get_client_by_mac env mac st = get_client_by_mac env mac' st /\
  (forall aps,
      fst (get_access_points env st) = Ok aps ->
      get_ap_name_by_mac env mac st = get_ap_name_by_mac env mac' st).
Proof.
  intros Hn. split.
  - unfold get_client_by_mac. now rewrite Hn.
  - intros aps Haps.
    rewrite (get_ap_name_by_mac_found env mac st aps Haps),
      (get_ap_name_by_mac_found env mac' st aps Haps), Hn.
    reflexivity.
Qed.

Lemma lookups_ignore_the_spelling_witness :
  get_client_by_mac (answering seen_twice) "AA-BB-CC-DD-EE-FF" (connected_os tt) =
  get_client_by_mac (answering seen_twice) "Aa.Bb.Cc.Dd.Ee.Ff" (connected_os tt).
Proof.
  exact (proj1 (lookups_ignore_the_spelling (answering seen_twice)
                  (connected_os tt) "AA-BB-CC-DD-EE-FF" "Aa.Bb.Cc.Dd.Ee.Ff"
                  eq_refl)).
Defined.

(** * Threat intelligence *)

Lemma classify_risk_cases (score : Z) :
  (score <= 0 /\ Intel._classify_risk score = ("clean", "#10b981"))%Z \/
  (0 < score < 25 /\ Intel._classify_risk score = ("low", "#00e1ff"))%Z \/
  (25 <= score < 50 /\ Intel._classify_risk score = ("medium", "#f59e0b"))%Z \/
  (50 <= score < 80 /\ Intel._classify_risk score = ("high", "#f97316"))%Z \/
  (80 <= score /\ Intel._classify_risk score = ("critical", "#ef4444"))%Z.
Proof.
  unfold Intel._classify_risk.
  destruct (Z.geb_spec score 80); [right; right; right; right; split; [lia|reflexivity]|].
  destruct (Z.geb_spec score 50); [right; right; right; left; split; [lia|reflexivity]|].
  destruct (Z.geb_spec score 25); [right; right; left; split; [lia|reflexivity]|].
  destruct (Z.gtb_spec score 0); [right; left; split; [lia|reflexivity]|].
  left. split; [lia|reflexivity].
Qed.

(** X23: [_classify_risk] is monotone: a higher score never gets a less
    severe level, the levels being clean, low, medium, high and
    critical.  Every int gets one of these five, a level has one colour
    and a colour one level, the level is clean exactly for a score of 0
    or below, and the level and colour [check_ip] reports for a private
    address are those of the score 0. *)
Theorem classify_risk_is_monotone (a b : Z) :
  ((a <= b)%Z ->
   Intel.severity (fst (Intel._classify_risk a)) <=
   Intel.severity (fst (Intel._classify_risk b))) /\
  Intel.severity (fst (Intel._classify_risk a)) <= 4 /\
  (fst (Intel._classify_risk a) = fst (Intel._classify_risk b) <->
   snd (Intel._classify_risk a) = snd (Intel._classify_risk b)) /\
  (fst (Intel._classify_risk a) = "clean" <-> (a <= 0)%Z) /\
  Intel._classify_risk 0 = Intel.private_ip_risk.
Proof.
  destruct (classify_risk_cases a) as [[Ha ->]|[[Ha ->]|[[Ha ->]|[[Ha ->]|[Ha ->]]]]];
  destruct (classify_risk_cases b) as [[Hb ->]|[[Hb ->]|[[Hb ->]|[[Hb ->]|[Hb ->]]]]];
  cbn [fst snd];
  (split; [intros Hle; first [lia | vm_compute; lia]|]);
  (split; [vm_compute; lia|]);
  (split; [split; intros E; first [reflexivity | discriminate E]|]);
  (split; [split; [intros E; first [lia | discriminate E]
                  | intros E; first [reflexivity | lia]]|]);
  reflexivity.
Qed.
